(** * MindTheQApp: the noisy variational circuit and its training engine

    A shallow embedding of [app/utils/instructor.py] (classes [Model] and
    [Instructor]) and of the [training] callback of
    [app/pages/2-noise-training.py].

    PennyLane and NumPy are external to the repository.  What the code asks
    of them (device creation, execution of a recorded circuit, the seeded
    random generator, the Adam optimizer, the Fourier-coefficient routine)
    is taken as a parameter of the development; NumPy's float64 numbers are
    idealised as real numbers. *)

From Stdlib Require Import ZArith List Bool Lia Reals Lra FunctionalExtensionality.
From Stdlib Require Import Machin.
From Stdlib Require String.
Import String.StringSyntax.
Delimit Scope string_scope with string.
Import ListNotations.

Set Implicit Arguments.

(** ** Python exceptions and fallible computations *)

Inductive exn : Type :=
| AssertionError
| AttributeError
| IndexError
| TypeError
| ValueError
| LibraryError (code : nat).

Inductive result (A : Type) : Type :=
| Ok (a : A)
| Raise (e : exn).

Arguments Ok {A} a.
Arguments Raise {A} e.

Definition rbind {A B : Type} (m : result A) (k : A -> result B) : result B :=
  match m with
  | Ok a => k a
  | Raise e => Raise e
  end.

Definition rmap {A B : Type} (f : A -> B) (m : result A) : result B :=
  rbind m (fun a => Ok (f a)).

(** Computations that thread a state [S] (the tape under construction, or
    the [Instructor] object) and may raise. *)
Definition ST (S A : Type) : Type := S -> result (A * S).

Definition sret {S A : Type} (a : A) : ST S A := fun s => Ok (a, s).

Definition sbind {S A B : Type} (m : ST S A) (k : A -> ST S B) : ST S B :=
  fun s => match m s with
           | Ok (a, s') => k a s'
           | Raise e => Raise e
           end.

Definition lift {S A : Type} (m : result A) : ST S A :=
  fun s => match m with
           | Ok a => Ok (a, s)
           | Raise e => Raise e
           end.

Declare Scope py_scope.
Delimit Scope py_scope with py.
Notation "x <- m ;; k" := (rbind m (fun x => k))
  (at level 61, m at next level, right associativity) : py_scope.
Notation "x <~ m ;; k" := (sbind m (fun x => k))
  (at level 61, m at next level, right associativity) : py_scope.
Notation "m ;;; k" := (sbind m (fun _ => k))
  (at level 61, right associativity) : py_scope.
Local Open Scope py_scope.

(** [range(n)]: empty when [n <= 0]. *)
Definition range (n : Z) : list Z := map Z.of_nat (seq 0 (Z.to_nat n)).

(** [for i in xs: acc = body(i, acc)], stopping at the first exception. *)
Fixpoint for_each {S I A : Type} (xs : list I) (body : I -> A -> ST S A)
  (acc : A) : ST S A :=
  match xs with
  | [] => sret acc
  | i :: xs' => acc' <~ body i acc ;; for_each xs' body acc'
  end.

(** [row[i]] on a list or a 1-D array, for an index that is never negative. *)
Definition getitem {A : Type} (row : list A) (i : nat) : result A :=
  match nth_error row i with
  | Some a => Ok a
  | None => Raise IndexError
  end.

(** ** The recorded circuit *)

(** The five noise probabilities handed to every call. *)
Record noise_params (scalar : Type) : Type := Noise {
  bf : scalar;
  pf : scalar;
  ad : scalar;
  pd : scalar;
  dp : scalar
}.

(** Gates and channels queued by the circuit function, with their wires. *)
Inductive operation (scalar input : Type) : Type :=
| RX (theta : scalar) (wire : Z)
| RY (x : input) (wire : Z)
| RZ (theta : scalar) (wire : Z)
| CRX (theta : scalar) (control target : Z)
| BitFlip (p : scalar) (wire : Z)
| PhaseFlip (p : scalar) (wire : Z)
| AmplitudeDamping (p : scalar) (wire : Z)
| PhaseDamping (p : scalar) (wire : Z)
| DepolarizingChannel (p : scalar) (wire : Z).

Arguments RX {scalar input} theta wire.
Arguments RY {scalar input} x wire.
Arguments RZ {scalar input} theta wire.
Arguments CRX {scalar input} theta control target.
Arguments BitFlip {scalar input} p wire.
Arguments PhaseFlip {scalar input} p wire.
Arguments AmplitudeDamping {scalar input} p wire.
Arguments PhaseDamping {scalar input} p wire.
Arguments DepolarizingChannel {scalar input} p wire.

(** What the circuit function returns: [qml.state()] or
    [qml.expval(qml.PauliZ(wire))]. *)
Inductive measurement : Type :=
| StateMP
| ExpvalPauliZ (wire : Z).

(** A weight argument is a nested Python list (what session storage hands
    back) or an array with a [shape]; [rows] is the data along axis 0. *)
Inductive weight_array (scalar : Type) : Type :=
| PyList (rows : list (list scalar))
| NdArray (shape : list nat) (rows : list (list scalar)).

Arguments PyList {scalar} rows.
Arguments NdArray {scalar} shape rows.

Definition rows_of {scalar : Type} (w : weight_array scalar) : list (list scalar) :=
  match w with
  | PyList rows => rows
  | NdArray _ rows => rows
  end.

(** [w.shape == n_params], a tuple of two integers on the right. *)
Definition shape_eqb (shape : list nat) (n_params : Z * Z) : bool :=
  match shape with
  | [r; c] => (Z.of_nat r =? fst n_params)%Z && (Z.of_nat c =? snd n_params)%Z
  | _ => false
  end.

(** The ansatz variants [Model] can dispatch to: [_pqc19] is the only one. *)
Inductive ansatz : Type := Circuit19.

Module Model.

Section WithBackend.

Variables scalar input device : Type.

(** [qml.device("default.mixed", wires=n)]. *)
Variable qml_device : Z -> result device.

Local Abbreviation op := (operation scalar input).
Local Abbreviation Queue := (ST (list op)).

Record t : Type := Build {
  n_qubits : Z;
  n_layers : Z;
  state_vector : bool;
  pqc : ansatz;
  n_params : Z * Z;
  dev : device
}.

(** Instantiating an operation inside the circuit function queues it. *)
Definition queue (o : op) : Queue unit := fun tape => Ok (tt, tape ++ [o]).

Definition _n_params_circ19 (n_layers n_qubits : Z) : Z * Z :=
  (n_layers, n_qubits * 3 - 1)%Z.

(** [getattr(self, f"_pqc{circuit_type}")]. *)
Definition lookup_pqc (circuit_type : Z) : result ansatz :=
  if (circuit_type =? 19)%Z then Ok Circuit19 else Raise AttributeError.

(** [getattr(self, f"_n_params_circ{circuit_type}")()]. *)
Definition lookup_n_params (circuit_type : Z) (n_layers n_qubits : Z)
  : result (Z * Z) :=
  if (circuit_type =? 19)%Z then Ok (_n_params_circ19 n_layers n_qubits)
  else Raise AttributeError.

Definition __init__ (n_qubits n_layers circuit_type : Z) (state_vector : bool)
  : result t :=
  pqc <- lookup_pqc circuit_type ;;
  n_params <- lookup_n_params circuit_type n_layers n_qubits ;;
  dev <- qml_device n_qubits ;;
  Ok (Build n_qubits n_layers state_vector pqc n_params dev).

Definition _pqc19 (self : t) (w : list scalar) : Queue unit :=
  w_idx <~ for_each (range (n_qubits self))
             (fun q w_idx =>
                a <~ lift (getitem w w_idx) ;;
                queue (RX a q) ;;;
                let w_idx := S w_idx in
                b <~ lift (getitem w w_idx) ;;
                queue (RZ b q) ;;;
                let w_idx := S w_idx in
                sret w_idx) 0%nat ;;
  _ <~ for_each (range (n_qubits self))
             (fun q w_idx =>
                if (q >? 0)%Z then
                  c <~ lift (getitem w w_idx) ;;
                  queue (CRX c q ((q + 1) mod n_qubits self)%Z) ;;;
                  sret (S w_idx)
                else sret w_idx) w_idx ;;
  sret tt.

Definition iec (self : t) (x : input) : Queue unit :=
  _ <~ for_each (range (n_qubits self)) (fun q _ => queue (RY x q)) tt ;;
  sret tt.

Definition run_pqc (self : t) (w : list scalar) : Queue unit :=
  match pqc self with
  | Circuit19 => _pqc19 self w
  end.

(** The five channels on one qubit, in source order. *)
Definition apply_noise (np : noise_params scalar) (q : Z) : Queue unit :=
  queue (BitFlip (bf np) q) ;;;
  queue (PhaseFlip (pf np) q) ;;;
  queue (AmplitudeDamping (ad np) q) ;;;
  queue (PhaseDamping (pd np) q) ;;;
  queue (DepolarizingChannel (dp np) q).

(** [isinstance(w, list) or w.shape == self.n_params]. *)
Definition shape_ok (self : t) (w : weight_array scalar) : bool :=
  match w with
  | PyList _ => true
  | NdArray shape _ => shape_eqb shape (n_params self)
  end.

Definition _circuit (self : t) (w : weight_array scalar) (x : input)
  (np : noise_params scalar) : Queue measurement :=
  if shape_ok self w then
    _ <~ for_each (range (n_layers self))
           (fun l _ =>
              iec self x ;;;
              w_l <~ lift (getitem (rows_of w) (Z.to_nat l)) ;;
              run_pqc self w_l ;;;
              _ <~ for_each (range (n_qubits self))
                     (fun q _ => apply_noise np q) tt ;;
              sret tt) tt ;;
    if state_vector self then sret StateMP else sret (ExpvalPauliZ 0)
  else lift (Raise AssertionError).

(** Running the QNode: record the circuit on an empty tape, then hand the
    tape and the measurement to the device. *)
Variable execute : device -> list op -> measurement -> result (list scalar).

Definition __call__ (self : t) (w : weight_array scalar) (x : input)
  (np : noise_params scalar) : result (list scalar) :=
  r <- _circuit self w x np [] ;;
  execute (dev self) (snd r) (fst r).

End WithBackend.

End Model.

(** ** NumPy on real numbers *)

Local Open Scope R_scope.

(** [np.ceil] followed by [int]: the least integer not below [x]. *)
Definition np_ceil (x : R) : Z := (1 - up (- x))%Z.

(** [np.max] of a non-empty 1-D array (0 stands in for the error on an
    empty one, which the code never builds). *)
Definition np_max (l : list R) : R :=
  match l with
  | [] => 0
  | x :: l' => fold_left Rmax l' x
  end.

Definition np_sum (l : list R) : R := fold_right Rplus 0 l.

Definition np_mean (l : list R) : R := np_sum l / INR (length l).

(** [np.linalg.norm] of a 1-D array. *)
Definition np_norm (l : list R) : R := sqrt (np_sum (map (fun x => x ^ 2) l)).

(** [np.linspace(start, stop, num)] with the end point included. *)
Definition np_linspace (start stop : R) (num : nat) : list R :=
  let step := (stop - start) / INR (num - 1) in
  map (fun i => INR i * step + start) (seq 0 num).

(** Element-wise binary operation on 1-D arrays with NumPy's broadcasting:
    equal lengths, or one side of length one. *)
Definition broadcast2 {A : Type} (f : A -> A -> A) (a b : list A)
  : result (list A) :=
  if (length a =? length b)%nat then Ok (map (fun p => f (fst p) (snd p)) (combine a b))
  else match a, b with
       | [x], _ => Ok (map (f x) b)
       | _, [y] => Ok (map (fun x => f x y) a)
       | _, _ => Raise ValueError
       end.

(** [mapM] in the error monad. *)
Fixpoint sequence {A : Type} (l : list (result A)) : result (list A) :=
  match l with
  | [] => Ok []
  | m :: l' => a <- m ;; r <- sequence l' ;; Ok (a :: r)
  end.

(** The same on 2-D arrays given by their rows. *)
Definition broadcast2_rows (f : R -> R -> R) (a b : list (list R))
  : result (list (list R)) :=
  if (length a =? length b)%nat
  then sequence (map (fun p => broadcast2 f (fst p) (snd p)) (combine a b))
  else match a, b with
       | [x], _ => sequence (map (broadcast2 f x) b)
       | _, [y] => sequence (map (fun x => broadcast2 f x y) a)
       | _, _ => Raise ValueError
       end.

(** [len(w)]. *)
Definition len {scalar : Type} (w : weight_array scalar) : result nat :=
  match w with
  | PyList rows => Ok (length rows)
  | NdArray [] _ => Raise TypeError
  | NdArray (d :: _) _ => Ok d
  end.

(** [np.array(w, requires_grad=True)]: an array stays as it is, a nested
    list becomes a 2-D array when its rows have one length, the empty list
    the empty 1-D array, and a ragged list is refused. *)
Definition np_array {scalar : Type} (w : weight_array scalar) : result (weight_array scalar) :=
  match w with
  | NdArray shape rows => Ok (NdArray shape rows)
  | PyList [] => Ok (NdArray [0%nat] [])
  | PyList (r :: rows) =>
      if forallb (fun r' => (length r' =? length r)%nat) rows
      then Ok (NdArray [S (length rows); length r] (r :: rows))
      else Raise ValueError
  end.

(** A complex Fourier coefficient, as (real part, imaginary part). *)
Definition complex : Type := R * R.

(** The dictionary [_extract_data_and_labels] builds. *)
Record fourier_data : Type := FourierData {
  real : list (list R);
  imag : list (list R)
}.

(** The dictionary [calc_hist] returns, with the added key ["comb"]. *)
Record hist_data : Type := HistData {
  h_real : list (list R);
  h_imag : list (list R);
  h_comb : list (list R)
}.

Module Instructor.

Section WithLibraries.

Variables device optstate labels : Type.

(** [qml.device] and the execution of a recorded circuit on it. *)
Variable qml_device : Z -> result device.
Variable execute :
  device -> list (operation R (list R)) -> measurement -> result (list R).

(** [np.random.default_rng(seed).random(size=(rows, cols))]. *)
Variable rng_random : Z -> Z -> Z -> result (list (list R)).

(** [qml.AdamOptimizer(stepsize)] and its [step_and_cost(objective, w)]. *)
Variable AdamOptimizer : R -> optstate.
Variable step_and_cost :
  optstate -> (weight_array R -> result R) -> weight_array R ->
  result (weight_array R * R * optstate).

(** [pennylane.fourier.coefficients(f, n_inputs, degree)] and
    [_extract_data_and_labels]. *)
Variable coefficients :
  (list R -> result (list R)) -> Z -> Z -> result (list complex).
Variable _extract_data_and_labels :
  list (list complex) -> result (labels * fourier_data).

Record t : Type := Build {
  max_freq : Z;
  model : Model.t device;
  x_d : list R;
  y_d : list R;
  weights : weight_array R;
  opt : optstate
}.

Definition set_opt (self : t) (o : optstate) : t :=
  Build (max_freq self) (model self) (x_d self) (y_d self) (weights self) o.

Definition x_domain : list R := [-1 * PI; 1 * PI].

Definition omega_d : list R := [1; 2; 3].

Definition n_d : Z :=
  np_ceil (2 * np_max (map Rabs x_domain) * np_max omega_d).

Definition y_fct (x : R) : R :=
  1 / np_norm omega_d * np_sum (map (fun o => cos (o * x)) omega_d).

Definition __init__ (n_qubits n_layers seed : Z) : result t :=
  let max_freq := (n_qubits * n_layers)%Z in
  model <- Model.__init__ qml_device n_qubits n_layers 19 false ;;
  let x_d := np_linspace (nth 0 x_domain 0) (nth 1 x_domain 0) (Z.to_nat n_d) in
  let y_d := map y_fct x_d in
  u <- rng_random seed n_layers (n_qubits * 3 - 1)%Z ;;
  let weights :=
    NdArray [Z.to_nat n_layers; Z.to_nat (n_qubits * 3 - 1)]
            (map (map (fun r => 2 * PI * (1 - 2 * r))) u) in
  let opt := AdamOptimizer 0.05 in
  Ok (Build max_freq model x_d y_d weights opt).

Definition forward (x_d : list R) (weights_arg : option (weight_array R))
  (np : noise_params R) : ST t (list R) :=
  fun self =>
    let w := match weights_arg with
             | Some w => w
             | None => weights self
             end in
    lift (Model.__call__ execute (model self) w x_d np) self.

Definition cost (w : weight_array R) (y_d : list R) (np : noise_params R)
  : ST t R :=
  y_pred <~ (fun self => forward (x_d self) (Some w) np self) ;;
  d <~ lift (broadcast2 Rminus y_d y_pred) ;;
  sret (np_mean (map (fun v => v ^ 2) d)).

(** The objective the optimizer differentiates: [self.cost] with the
    keyword arguments fixed. *)
Definition objective (self : t) (y_d : list R) (np : noise_params R)
  (w : weight_array R) : result R :=
  rmap fst (cost w y_d np self).

Definition step (w : weight_array R) (np : noise_params R)
  : ST t (weight_array R * R) :=
  fun self =>
    n <- len w ;;
    let w := if (n =? 0)%nat then weights self else w in
    w <- np_array w ;;
    r <- step_and_cost (opt self) (objective self (y_d self) np) w ;;
    Ok (fst r, set_opt self (snd r)).

Definition calc_hist (w : weight_array R) (np : noise_params R)
  : ST t (nat * hist_data) :=
  fun self =>
    coeffs <- coefficients
                (fun x => rmap fst (forward x (Some w) np self))
                1 (max_freq self) ;;
    r <- _extract_data_and_labels [coeffs] ;;
    let data := snd r in
    row0 <- getitem (real data) 0 ;;
    let data_len := length row0 in
    let re2 := map (map (fun v => v ^ 2)) (real data) in
    let im2 := map (map (fun v => v ^ 2)) (imag data) in
    s <- broadcast2_rows Rplus re2 im2 ;;
    let comb := map (map sqrt) s in
    Ok ((data_len, HistData (real data) (imag data) comb), self).

End WithLibraries.

End Instructor.

(** ** The [training] callback of the noise-training page *)

(** The stored record with the keys ["loss"] and ["weights"]. *)
Record page_log_t : Type := PageLog {
  loss : list R;
  log_weights : weight_array R
}.

(** The session record with the keys ["niq"], ["nil"] and ["seed"]. *)
Record main_data_t : Type := MainData {
  niq : Z;
  nil_ : Z;
  seed : Z
}.

Definition empty_log : page_log_t := PageLog [] (PyList []).

(** [page_log or {"loss": [], "weights": []}]. *)
Definition or_default (page_log : option page_log_t) : page_log_t :=
  match page_log with
  | Some l => l
  | None => empty_log
  end.

(** [if len(page_log["loss"]) > 30:] both entries are emptied. *)
Definition cap_reset (page_log : page_log_t) : page_log_t :=
  if (30 <? length (loss page_log))%nat then PageLog [] (PyList [])
  else page_log.

Section Training.

Variables device optstate : Type.
Variable qml_device : Z -> result device.
Variable execute :
  device -> list (operation R (list R)) -> measurement -> result (list R).
Variable rng_random : Z -> Z -> Z -> result (list (list R)).
Variable AdamOptimizer : R -> optstate.
Variable step_and_cost :
  optstate -> (weight_array R -> result R) -> weight_array R ->
  result (weight_array R * R * optstate).

Definition training (page_log : option page_log_t) (page_data : noise_params R)
  (main_data : main_data_t) : result page_log_t :=
  let page_log := or_default page_log in
  let page_log := cap_reset page_log in
  instructor <- Instructor.__init__ qml_device rng_random AdamOptimizer
                  (niq main_data) (nil_ main_data) (seed main_data) ;;
  r <- Instructor.step execute step_and_cost (log_weights page_log)
         page_data instructor ;;
  let w := fst (fst r) in
  let cost := snd (fst r) in
  Ok (PageLog (loss page_log ++ [cost]) w).

End Training.

(** ** Layouts: the recorded circuit as the specification describes it *)

Section Layouts.

Variables scalar input : Type.

Local Abbreviation op := (operation scalar input).

(** Two rotations per qubit, taking the weight entries two by two. *)
Fixpoint rotation_pairs (qs : list Z) (w : list scalar) : list op :=
  match qs, w with
  | q :: qs', a :: b :: w' => RX a q :: RZ b q :: rotation_pairs qs' w'
  | _, _ => []
  end.

(** One controlled rotation per listed qubit, towards its ring neighbour. *)
Definition controlled_ring (n : Z) (qs : list Z) (w : list scalar) : list op :=
  map (fun p => CRX (snd p) (fst p) ((fst p + 1) mod n)%Z) (combine qs w).

Definition pqc19_layout (n : Z) (w : list scalar) : list op :=
  rotation_pairs (range n) w
  ++ controlled_ring n (tl (range n)) (skipn (2 * Z.to_nat n) w).

Definition noise_layout (np : noise_params scalar) (q : Z) : list op :=
  [BitFlip (bf np) q; PhaseFlip (pf np) q; AmplitudeDamping (ad np) q;
   PhaseDamping (pd np) q; DepolarizingChannel (dp np) q].

Definition layer_layout (n : Z) (x : input) (np : noise_params scalar)
  (w_l : list scalar) : list op :=
  map (RY x) (range n) ++ pqc19_layout n w_l ++ flat_map (noise_layout np) (range n).

Definition circuit_layout (n : Z) (x : input) (np : noise_params scalar)
  (rows : list (list scalar)) : list op :=
  flat_map (layer_layout n x np) rows.

(** A weight argument of the required shape [(n_layers, n_qubits*3 - 1)]. *)
Definition has_shape (n_layers n_qubits : Z) (rows : list (list scalar)) : Prop :=
  Z.of_nat (length rows) = n_layers /\
  Forall (fun r => Z.of_nat (length r) = (n_qubits * 3 - 1)%Z) rows.

End Layouts.

(** ** What the code relies on from the libraries *)

(** The circuit at one point of a batched input. *)
Definition at_point (i : nat) (o : operation R (list R)) : operation R (list R) :=
  match o with
  | RY xs q => RY [nth i xs 0] q
  | _ => o
  end.

Definition encodes (xs : list R) (o : operation R (list R)) : Prop :=
  match o with
  | RY ys _ => ys = xs
  | _ => True
  end.

Definition is_RY (o : operation R (list R)) : bool :=
  match o with
  | RY _ _ => true
  | _ => false
  end.

(** Parameter broadcasting: a circuit whose encoding gates carry the batch
    [xs] yields one expectation value per entry of [xs], the one the circuit
    at that entry yields. *)
Definition broadcasts {device : Type}
  (execute : device -> list (operation R (list R)) -> measurement ->
             result (list R)) : Prop :=
  forall dev ops wire xs ys,
    Forall (encodes xs) ops -> existsb is_RY ops = true ->
    execute dev ops (ExpvalPauliZ wire) = Ok ys ->
    length ys = length xs /\
    forall i, (i < length xs)%nat ->
      execute dev (map (at_point i) ops) (ExpvalPauliZ wire) = Ok [nth i ys 0].

(** [step_and_cost] returns the objective evaluated at the weights it was
    given, and raises what the objective raises there. *)
Definition returns_objective {optstate : Type}
  (step_and_cost : optstate -> (weight_array R -> result R) -> weight_array R ->
                   result (weight_array R * R * optstate)) : Prop :=
  forall st f w w' c st',
    step_and_cost st f w = Ok (w', c, st') -> f w = Ok c.

Definition propagates {optstate : Type}
  (step_and_cost : optstate -> (weight_array R -> result R) -> weight_array R ->
                   result (weight_array R * R * optstate)) : Prop :=
  forall st f w e, f w = Raise e -> step_and_cost st f w = Raise e.

(** [coefficients(f, 1, degree)] has one entry per frequency from [-degree]
    to [degree]. *)
Definition coefficients_length
  (coefficients : (list R -> result (list R)) -> Z -> Z -> result (list complex))
  : Prop :=
  forall f degree cs,
    coefficients f 1%Z degree = Ok cs ->
    Z.of_nat (length cs) = (2 * degree + 1)%Z.

(** [_extract_data_and_labels] on one coefficient vector of odd length
    yields one row of real parts and one of imaginary parts, a bin per
    coefficient. *)
Definition extract_shape {labels : Type}
  (_extract_data_and_labels :
     list (list complex) -> result (labels * fourier_data)) : Prop :=
  forall cs d lab data,
    length cs = (2 * d + 1)%nat ->
    _extract_data_and_labels [cs] = Ok (lab, data) ->
    exists re im,
      real data = [re] /\ imag data = [im] /\
      length re = length cs /\ length im = length cs.

(** ** Sequences of method calls on one instance *)

Section Calls.

Variables device optstate labels : Type.
Variable execute :
  device -> list (operation R (list R)) -> measurement -> result (list R).
Variable step_and_cost :
  optstate -> (weight_array R -> result R) -> weight_array R ->
  result (weight_array R * R * optstate).
Variable coefficients :
  (list R -> result (list R)) -> Z -> Z -> result (list complex).
Variable _extract_data_and_labels :
  list (list complex) -> result (labels * fourier_data).

Inductive call : Type :=
| CallForward (x_d : list R) (weights_arg : option (weight_array R))
    (np : noise_params R)
| CallCost (w : weight_array R) (y_d : list R) (np : noise_params R)
| CallStep (w : weight_array R) (np : noise_params R)
| CallCalcHist (w : weight_array R) (np : noise_params R).

(** The instance after a method call; an exception leaves it as it was. *)
Definition after {S A : Type} (m : ST S A) (s : S) : S :=
  match m s with
  | Ok (_, s') => s'
  | Raise _ => s
  end.

Definition run_call (c : call) (self : Instructor.t device optstate)
  : Instructor.t device optstate :=
  match c with
  | CallForward x_d weights_arg np =>
      after (Instructor.forward execute x_d weights_arg np) self
  | CallCost w y_d np => after (Instructor.cost execute w y_d np) self
  | CallStep w np => after (Instructor.step execute step_and_cost w np) self
  | CallCalcHist w np =>
      after (Instructor.calc_hist execute coefficients
               _extract_data_and_labels w np) self
  end.

Definition run_calls (cs : list call) (self : Instructor.t device optstate)
  : Instructor.t device optstate :=
  fold_left (fun s c => run_call c s) cs self.

End Calls.

(** ** A small concrete backend, to run the definitions on *)

Module Toy.

Definition qml_device (n : Z) : result unit :=
  if (0 <? n)%Z then Ok tt else Raise (LibraryError 0).

Fixpoint first_encoding (ops : list (operation R (list R))) : option (list R) :=
  match ops with
  | [] => None
  | RY xs _ :: _ => Some xs
  | _ :: ops' => first_encoding ops'
  end.

Definition execute (_ : unit) (ops : list (operation R (list R)))
  (_ : measurement) : result (list R) :=
  match first_encoding ops with
  | Some xs => Ok xs
  | None => Ok [1]
  end.

Definition rng_random (seed rows cols : Z) : result (list (list R)) :=
  if ((rows <? 0) || (cols <? 0))%Z then Raise ValueError
  else Ok (repeat (repeat 0 (Z.to_nat cols)) (Z.to_nat rows)).

Definition AdamOptimizer (stepsize : R) : nat := 0%nat.

Definition step_and_cost (st : nat) (f : weight_array R -> result R)
  (w : weight_array R) : result (weight_array R * R * nat) :=
  c <- f w ;; Ok (w, c, S st).

Definition coefficients (f : list R -> result (list R)) (n_inputs degree : Z)
  : result (list complex) :=
  if (degree <? 0)%Z then Raise ValueError
  else Ok (repeat (0, 0) (Z.to_nat (2 * degree + 1))).

Definition _extract_data_and_labels (cs : list (list complex))
  : result (unit * fourier_data) :=
  Ok (tt, FourierData (map (map fst) cs) (map (map snd) cs)).

Definition model : Model.t unit := Model.Build 1 1 false Circuit19 (1, 2)%Z tt.

Definition two_qubits : Model.t unit :=
  Model.Build 2 1 false Circuit19 (1, 5)%Z tt.

Definition no_noise : noise_params R := Noise 0 0 0 0 0.

Definition instructor : Instructor.t unit nat :=
  Instructor.Build 1 model [0; 1] [1; 0] (NdArray [1; 2]%nat [[0; 0]]) 0%nat.

(** What construction with 2 qubits and 4 layers yields on this backend. *)
Definition fresh : Instructor.t unit nat :=
  Instructor.Build 8
    (Model.Build 2 4 false Circuit19 (4, 5)%Z tt)
    (np_linspace (-1 * PI) (1 * PI) (Z.to_nat Instructor.n_d))
    (map Instructor.y_fct
       (np_linspace (-1 * PI) (1 * PI) (Z.to_nat Instructor.n_d)))
    (NdArray [4; 5]%nat
       (map (map (fun r => 2 * PI * (1 - 2 * r))) (repeat (repeat 0 5) 4)))
    0%nat.

(** A stored log of 31 loss entries, and one of 30. *)
Definition log31 : page_log_t := PageLog (repeat 1 31) (PyList [[0; 0]]).

Definition log30 : page_log_t := PageLog (repeat 1 30) (PyList [[0; 0]]).

Definition session : main_data_t := MainData 1 1 100.

End Toy.

(** Computations whose only exception is an index out of range. *)
Definition raises_only_index {S A : Type} (m : ST S A) : Prop :=
  forall s e, m s = Raise e -> e = IndexError.

(** The same computation at the batch [xs] and at its entry [i]: from a
    tape whose encoding gates carry [xs], a run at the batch only appends,
    keeps that property, and is matched by the run at the entry. *)
Definition tracks (xs : list R) (i : nat) {A : Type}
  (m m' : ST (list (operation R (list R))) A) : Prop :=
  forall t a t',
    Forall (encodes xs) t -> m t = Ok (a, t') ->
    Forall (encodes xs) t' /\
    (exists suffix, t' = t ++ suffix) /\
    m' (map (at_point i) t) = Ok (a, map (at_point i) t').

(** ** Wires *)

Section Wires.

Variables scalar input : Type.

(** The wires an operation acts on, control first. *)
Definition wires (o : operation scalar input) : list Z :=
  match o with
  | RX _ q | RY _ q | RZ _ q => [q]
  | CRX _ c t => [c; t]
  | BitFlip _ q | PhaseFlip _ q | AmplitudeDamping _ q | PhaseDamping _ q
  | DepolarizingChannel _ q => [q]
  end.

(** An operation a device of [n] wires accepts: its wires are among
    [0..n-1] and differ from one another. *)
Definition on_device (n : Z) (o : operation scalar input) : Prop :=
  Forall (fun q => (0 <= q < n)%Z) (wires o) /\ NoDup (wires o).

(** A computation that keeps a property of every operation on the tape. *)
Definition keeps {A : Type} (P : operation scalar input -> Prop)
  (m : ST (list (operation scalar input)) A) : Prop :=
  forall t a t', Forall P t -> m t = Ok (a, t') -> Forall P t'.

End Wires.

(** [rng.random(size=(rows, cols))] returns [rows] rows of [cols] numbers
    of the half-open interval from 0 to 1. *)
Definition unit_interval_matrix
  (rng_random : Z -> Z -> Z -> result (list (list R))) : Prop :=
  forall seed rows cols u,
    (0 <= rows)%Z -> (0 <= cols)%Z ->
    rng_random seed rows cols = Ok u ->
    Z.of_nat (length u) = rows /\
    Forall (fun row => Z.of_nat (length row) = cols /\
                       Forall (fun v => 0 <= v < 1) row) u.

(** ** The other callbacks of the noise-training page *)

(** What a callback hands back to the framework: a value, or
    [raise PreventUpdate()]. *)
Inductive update (A : Type) : Type :=
| Update (a : A)
| PreventUpdate.

Arguments Update {A} a.
Arguments PreventUpdate {A}.

(** [pong(_, data)]; [stdout] collects what is printed. *)
Definition pong (_timestamp : Z) (data : page_log_t) (stdout : list nat)
  : update page_log_t * list nat :=
  if (30 <? length (loss data))%nat then (PreventUpdate, stdout)
  else (Update data, stdout ++ [length (loss data)]).

(** The logs reached by successive ticks: the first one starts from an
    absent log, each further one from what session storage hands back, a
    log with the loss sequence of the tick before. *)
Inductive ticked (tick : option page_log_t -> result page_log_t)
  : nat -> page_log_t -> Prop :=
| ticked_first (out : page_log_t) :
    tick None = Ok out -> ticked tick 1 out
| ticked_next (k : nat) (log stored out : page_log_t) :
    ticked tick k log -> loss stored = loss log ->
    tick (Some stored) = Ok out -> ticked tick (S k) out.

(** [np.arange(start, stop, 1)] on integers. *)
Definition np_arange (start stop : Z) : list Z :=
  map (fun i => (start + Z.of_nat i)%Z) (seq 0 (Z.to_nat (stop - start))).

(** The stored histogram, with the keys ["x"], ["y"] and ["z"]. *)
Record page_log_hist_t : Type := PageLogHist {
  hist_x : list Z;
  hist_y : list Z;
  hist_z : list (list R)
}.

(** A figure: the traces added to it and the layout attributes set. *)
Inductive layout_value : Type :=
| LText (s : String.string)
| LNumber (z : Z)
| LBool (b : bool)
| LRange (lo hi : Z).

Inductive trace : Type :=
| Surface (x y : list Z) (z : list (list R))
| Scatter (x : option (list R)) (y : list R).

Record Figure : Type := MkFigure {
  traces : list trace;
  layout : list (String.string * layout_value)
}.

(** [go.Figure()], [fig.add_surface(...)] / [fig.add_scatter(...)] and
    [fig.update_layout(...)] with keys not set before. *)
Definition new_figure : Figure := MkFigure [] [].

Definition add_trace (fig : Figure) (t : trace) : Figure :=
  MkFigure (traces fig ++ [t]) (layout fig).

Definition update_layout (fig : Figure)
  (attributes : list (String.string * layout_value)) : Figure :=
  MkFigure (traces fig) (layout fig ++ attributes).

(** The value of a layout attribute. *)
Fixpoint attribute (key : String.string)
  (l : list (String.string * layout_value)) : option layout_value :=
  match l with
  | [] => None
  | (k, v) :: l' => if String.eqb key k then Some v else attribute key l'
  end.

(** Subscripting a stored record that may be absent ([None]). *)
Definition subscript {A : Type} (stored : option A) : result A :=
  match stored with
  | Some a => Ok a
  | None => Raise TypeError
  end.

Section Callbacks.

Variables device optstate labels : Type.
Variable qml_device : Z -> result device.
Variable execute :
  device -> list (operation R (list R)) -> measurement -> result (list R).
Variable rng_random : Z -> Z -> Z -> result (list (list R)).
Variable AdamOptimizer : R -> optstate.
Variable coefficients :
  (list R -> result (list R)) -> Z -> Z -> result (list complex).
Variable _extract_data_and_labels :
  list (list complex) -> result (labels * fourier_data).

Definition update_hist (n : Z) (page_log_training : option page_log_t)
  (page_log_hist : option page_log_hist_t) (page_data : noise_params R)
  (main_data : main_data_t) : result (Figure * page_log_hist_t) :=
  page_log_hist <-
    match page_log_hist with
    | None => Ok (PageLogHist [] [] [])
    | Some h =>
        log <- subscript page_log_training ;;
        Ok (if (length (loss log) =? 0)%nat then PageLogHist [] [] [] else h)
    end ;;
  instructor <- Instructor.__init__ qml_device rng_random AdamOptimizer
                  (niq main_data) (nil_ main_data) (seed main_data) ;;
  log <- subscript page_log_training ;;
  r <- Instructor.calc_hist execute coefficients _extract_data_and_labels
         (log_weights log) page_data instructor ;;
  let data_len := Z.of_nat (fst (fst r)) in
  let data := snd (fst r) in
  let x := np_arange ((- data_len) / 2 + 1) (data_len / 2 + 1) in
  let y := range (Z.of_nat (length (loss log))) in
  row <- getitem (h_comb data) 0 ;;
  let z := hist_z page_log_hist ++ [row] in
  let fig_hist := new_figure in
  let fig_hist :=
    if (0 <? length (loss log))%nat then add_trace fig_hist (Surface x y z)
    else fig_hist in
  let fig_hist :=
    update_layout fig_hist
      [("title", LText "Histogram (Absolute Value)");
       ("template", LText "simple_white");
       ("width", LNumber 500);
       ("height", LNumber 500);
       ("xaxis_title", LText "Frequency");
       ("yaxis_title", LText "Amplitude")]%string in
  Ok (fig_hist, PageLogHist x y z).

Definition update_expval (n : Z) (page_log_training : option page_log_t)
  (page_data : noise_params R) (main_data : main_data_t) : result Figure :=
  instructor <- Instructor.__init__ qml_device rng_random AdamOptimizer
                  (niq main_data) (nil_ main_data) (seed main_data) ;;
  log <- subscript page_log_training ;;
  r <- Instructor.forward execute (Instructor.x_d instructor)
         (Some (log_weights log)) page_data instructor ;;
  let y_pred := fst r in
  let fig_expval := new_figure in
  let fig_expval :=
    if (0 <? length (loss log))%nat then
      add_trace
        (add_trace fig_expval (Scatter (Some (Instructor.x_d instructor)) y_pred))
        (Scatter (Some (Instructor.x_d instructor)) (Instructor.y_d instructor))
    else fig_expval in
  let fig_expval :=
    update_layout fig_expval
      [("title", LText "Prediction");
       ("template", LText "simple_white");
       ("xaxis_title", LText "X Domain");
       ("yaxis_title", LText "Expectation Value");
       ("yaxis_range", LRange (-1) 1)]%string in
  Ok fig_expval.

End Callbacks.

Definition update_loss (n : Z) (page_log : option page_log_t) : Figure :=
  let page_log := or_default page_log in
  let fig_expval := new_figure in
  let fig_expval :=
    if (0 <? length (loss page_log))%nat
    then add_trace fig_expval (Scatter None (loss page_log))
    else fig_expval in
  update_layout fig_expval
    [("title", LText "Loss");
     ("template", LText "simple_white");
     ("xaxis_title", LText "Step");
     ("yaxis_title", LText "Loss");
     ("xaxis_range", LRange 0 30);
     ("autosize", LBool false);
     ("height", LNumber 400)]%string.

(** ** A backend whose optimizer leaves the weights alone *)

Module Demo.

Definition step_and_cost (st : nat) (f : weight_array R -> result R)
  (w : weight_array R) : result (weight_array R * R * nat) :=
  Ok (w, 1, S st).

Definition tick (log : option page_log_t) : result page_log_t :=
  training Toy.qml_device Toy.execute Toy.rng_random Toy.AdamOptimizer
    step_and_cost log Toy.no_noise Toy.session.

Definition after_tick (log : option page_log_t) : page_log_t :=
  match tick log with
  | Ok out => out
  | Raise _ => empty_log
  end.

Definition first : page_log_t := after_tick None.

Definition second : page_log_t := after_tick (Some first).

(** The instance the callbacks construct for the session [Toy.session],
    with the device echoing the encoded input. *)
Definition instructor : Instructor.t unit nat :=
  match Instructor.__init__ Toy.qml_device Toy.rng_random Toy.AdamOptimizer
          (niq Toy.session) (nil_ Toy.session) (seed Toy.session) with
  | Ok ins => ins
  | Raise _ => Toy.instructor
  end.

(** A Fourier routine that evaluates its function at the [2*degree + 1]
    sampling points of one period, raises what the function raises, and
    returns one number per sample. *)
Definition coefficients (f : list R -> result (list R)) (n_inputs degree : Z)
  : result (list complex) :=
  if (degree <? 0)%Z then Raise ValueError
  else
    samples <- sequence
                 (map (fun k => f [2 * PI / IZR (2 * degree + 1) * IZR k])
                    (np_arange (- degree) (degree + 1))) ;;
    Ok (map (fun s => (np_sum s, 0)) samples).

End Demo.

(** * Properties *)

Unset Implicit Arguments.

(** ** Lists, ranges and loops *)

Lemma range_length (n : Z) : length (range n) = Z.to_nat n.
Proof. unfold range. now rewrite length_map, length_seq. Qed.

Lemma range_nth_error (n : Z) (i : nat) :
  (i < Z.to_nat n)%nat -> nth_error (range n) i = Some (Z.of_nat i).
Proof.
  intros Hi. unfold range.
  rewrite nth_error_map, nth_error_seq.
  destruct (Nat.ltb_spec i (Z.to_nat n)) as [_ | Hge]; [reflexivity | lia].
Qed.

Lemma range_cons (n : Z) :
  (1 <= n)%Z -> range n = 0%Z :: map Z.of_nat (seq 1 (Z.to_nat n - 1)).
Proof.
  intros Hn. unfold range.
  replace (Z.to_nat n) with (S (Z.to_nat n - 1)) at 1 by lia.
  reflexivity.
Qed.

Lemma getitem_skipn {A : Type} (w : list A) (k : nat) :
  (k < length w)%nat ->
  exists a, getitem w k = Ok a /\ nth_error w k = Some a /\
            skipn k w = a :: skipn (S k) w.
Proof.
  revert k. induction w as [| x w IH]; intros k Hk; simpl in Hk; [lia |].
  destruct k as [| k].
  - exists x. repeat split.
  - destruct (IH k) as (a & Hg & Hn & Hs); [lia |].
    exists a. unfold getitem in *. simpl. rewrite Hn. repeat split.
    exact Hs.
Qed.

(** ** The ansatz layer *)

Section Ansatz.

Variables scalar input device : Type.

Local Abbreviation op := (operation scalar input).
Local Abbreviation model_t := (Model.t device).

Lemma rotations_loop (w : list scalar) (qs : list Z) :
  forall (k : nat) (tape : list op),
    (k + 2 * length qs <= length w)%nat ->
    for_each qs
      (fun q w_idx =>
         a <~ lift (getitem w w_idx) ;;
         Model.queue (RX a q) ;;;
         let w_idx := S w_idx in
         b <~ lift (getitem w w_idx) ;;
         Model.queue (RZ b q) ;;;
         let w_idx := S w_idx in
         sret w_idx) k tape
    = Ok ((k + 2 * length qs)%nat, tape ++ rotation_pairs input qs (skipn k w)).
Proof.
  induction qs as [| q qs IH]; intros k tape Hk; cbn [for_each length] in *.
  - unfold sret. cbn. now rewrite Nat.add_0_r, app_nil_r.
  - destruct (getitem_skipn w k) as (a & Ha & _ & Hsa); [lia |].
    destruct (getitem_skipn w (S k)) as (b & Hb & _ & Hsb); [lia |].
    unfold sbind at 1. unfold sbind at 1. unfold lift at 1. rewrite Ha.
    unfold sbind at 1. unfold Model.queue at 1.
    unfold sbind at 1. unfold lift at 1. rewrite Hb.
    unfold sbind at 1. unfold Model.queue at 1. unfold sret at 1.
    rewrite IH by lia.
    rewrite Hsa, Hsb. simpl.
    f_equal. f_equal; [lia |].
    now rewrite <- !app_assoc.
Qed.

Lemma controlled_loop (n : Z) (w : list scalar) (qs : list Z) :
  forall (k : nat) (tape : list op),
    Forall (fun q => (0 < q)%Z) qs ->
    (k + length qs <= length w)%nat ->
    for_each qs
      (fun q w_idx =>
         if (q >? 0)%Z then
           c <~ lift (getitem w w_idx) ;;
           Model.queue (CRX c q ((q + 1) mod n)%Z) ;;;
           sret (S w_idx)
         else sret w_idx) k tape
    = Ok ((k + length qs)%nat, tape ++ controlled_ring input n qs (skipn k w)).
Proof.
  induction qs as [| q qs IH]; intros k tape Hpos Hk; cbn [for_each length] in *.
  - unfold sret, controlled_ring. cbn. now rewrite Nat.add_0_r, app_nil_r.
  - inversion Hpos as [| ? ? Hq Hqs]; subst.
    destruct (getitem_skipn w k) as (c & Hc & _ & Hsc); [lia |].
    unfold sbind at 1.
    destruct (Z.gtb_spec q 0) as [_ | Hle]; [| lia].
    unfold sbind at 1. unfold lift at 1. rewrite Hc.
    unfold sbind at 1. unfold Model.queue at 1. unfold sret at 1.
    rewrite IH by (assumption || lia).
    rewrite Hsc. unfold controlled_ring. cbn [combine map fst snd].
    f_equal. f_equal; [lia |].
    now rewrite <- app_assoc.
Qed.

Lemma seq_positive (s m : nat) :
  Forall (fun q => (0 < q)%Z) (map Z.of_nat (seq (S s) m)).
Proof.
  apply Forall_forall. intros q Hin.
  apply in_map_iff in Hin. destruct Hin as (i & <- & Hi).
  apply in_seq in Hi. lia.
Qed.

(** The ansatz layer queues exactly its layout. *)
Lemma pqc19_queues (self : model_t) (w : list scalar) (tape : list op) :
  (1 <= Model.n_qubits self)%Z ->
  Z.of_nat (length w) = (Model.n_qubits self * 3 - 1)%Z ->
  Model._pqc19 (input := input) self w tape
  = Ok (tt, tape ++ pqc19_layout input (Model.n_qubits self) w).
Proof.
  intros Hn Hlen. unfold Model._pqc19.
  set (n := Model.n_qubits self) in *.
  unfold sbind at 1.
  rewrite rotations_loop by (rewrite range_length; lia).
  rewrite range_length. cbn [Nat.add].
  unfold sbind at 1.
  rewrite (range_cons n Hn) at 1. cbn [for_each].
  unfold sbind at 1. cbn [Z.gtb Z.compare]. unfold sret at 1.
  rewrite controlled_loop;
    [| apply seq_positive | rewrite length_map, length_seq; lia].
  unfold sret, pqc19_layout. cbn [skipn].
  replace (tl (range n)) with (map Z.of_nat (seq 1 (Z.to_nat n - 1)))
    by now rewrite (range_cons n Hn).
  now rewrite <- app_assoc.
Qed.

Lemma rotation_pairs_length (qs : list Z) :
  forall w : list scalar,
    (2 * length qs <= length w)%nat ->
    length (rotation_pairs input qs w) = (2 * length qs)%nat.
Proof.
  induction qs as [| q qs IH]; intros w Hw; cbn [rotation_pairs length] in *.
  - reflexivity.
  - destruct w as [| a [| b w]]; cbn [length] in *; try lia.
    rewrite IH by lia. lia.
Qed.

Lemma rotation_pairs_nth (qs : list Z) :
  forall (w : list scalar) (i : nat) (q : Z) (a b : scalar),
    nth_error qs i = Some q ->
    nth_error w (2 * i) = Some a ->
    nth_error w (2 * i + 1) = Some b ->
    nth_error (rotation_pairs input qs w) (2 * i) = Some (RX a q) /\
    nth_error (rotation_pairs input qs w) (2 * i + 1) = Some (RZ b q).
Proof.
  induction qs as [| q0 qs IH]; intros w i q a b Hq Ha Hb.
  - destruct i; discriminate.
  - destruct i as [| i].
    + cbn in Hq, Ha, Hb. injection Hq as ->.
      destruct w as [| a0 [| b0 w]]; try discriminate.
      cbn in Ha, Hb. injection Ha as ->. injection Hb as ->.
      now split.
    + replace (2 * S i)%nat with (S (S (2 * i))) in * by lia.
      replace (S (S (2 * i)) + 1)%nat with (S (S (2 * i + 1))) in * by lia.
      destruct w as [| a0 [| b0 w]]; try discriminate.
      cbn [rotation_pairs nth_error] in *.
      now apply IH.
Qed.

Lemma controlled_ring_length (n : Z) (qs : list Z) (w : list scalar) :
  (length qs <= length w)%nat ->
  length (controlled_ring input n qs w) = length qs.
Proof.
  intros H. unfold controlled_ring. rewrite length_map, length_combine. lia.
Qed.

Lemma controlled_ring_nth (n : Z) (qs : list Z) :
  forall (w : list scalar) (j : nat) (q : Z) (c : scalar),
    nth_error qs j = Some q ->
    nth_error w j = Some c ->
    nth_error (controlled_ring input n qs w) j
    = Some (CRX c q ((q + 1) mod n)%Z).
Proof.
  induction qs as [| q0 qs IH]; intros w j q c Hq Hc.
  - destruct j; discriminate.
  - destruct w as [| c0 w]; [destruct j; discriminate |].
    destruct j as [| j].
    + cbn in *. now injection Hq as ->; injection Hc as ->.
    + cbn in *. now apply IH.
Qed.

(** C3: for [n_qubits >= 1] and a weight row of length [n_qubits*3 - 1], the
    ansatz layer queues, for the qubits 0..n-1 in order, an RX and an RZ on
    the qubit taking the next two weight entries, and then, for the qubits
    1..n-1 in order, one CRX from qubit [q] to qubit [(q+1) mod n] taking one
    entry each: the operation at position [k] carries weight entry [k]. *)
Theorem pqc19_consumption_order (self : model_t) (w : list scalar)
  (tape : list op) :
  let n := Model.n_qubits self in
  (1 <= n)%Z ->
  Z.of_nat (length w) = (n * 3 - 1)%Z ->
  exists ops : list op,
    Model._pqc19 self w tape = Ok (tt, tape ++ ops) /\
    ops = pqc19_layout input n w /\
    length ops = length w /\
    (forall q, (0 <= q < n)%Z ->
       exists a b,
         nth_error w (2 * Z.to_nat q) = Some a /\
         nth_error w (2 * Z.to_nat q + 1) = Some b /\
         nth_error ops (2 * Z.to_nat q) = Some (RX a q) /\
         nth_error ops (2 * Z.to_nat q + 1) = Some (RZ b q)) /\
    (forall q, (1 <= q < n)%Z ->
       exists c,
         nth_error w (2 * Z.to_nat n + (Z.to_nat q - 1)) = Some c /\
         nth_error ops (2 * Z.to_nat n + (Z.to_nat q - 1))
         = Some (CRX c q ((q + 1) mod n)%Z)).
Proof.
  intros n Hn Hlen.
  assert (Hrot : length (rotation_pairs input (range n) w) = (2 * Z.to_nat n)%nat).
  { rewrite rotation_pairs_length; rewrite range_length; lia. }
  assert (Htl : tl (range n) = map Z.of_nat (seq 1 (Z.to_nat n - 1))).
  { now rewrite (range_cons n Hn). }
  exists (pqc19_layout input n w). repeat split.
  - now apply pqc19_queues.
  - unfold pqc19_layout. rewrite length_app, Hrot, controlled_ring_length.
    + rewrite Htl, length_map, length_seq. lia.
    + rewrite Htl, length_map, length_seq, length_skipn. lia.
  - intros q Hq.
    destruct (nth_error w (2 * Z.to_nat q)) as [a |] eqn:Ha;
      [| apply nth_error_None in Ha; lia].
    destruct (nth_error w (2 * Z.to_nat q + 1)) as [b |] eqn:Hb;
      [| apply nth_error_None in Hb; lia].
    exists a, b. split; [reflexivity |]. split; [reflexivity |].
    destruct (rotation_pairs_nth (range n) w (Z.to_nat q) q a b) as [H1 H2];
      try assumption.
    { rewrite range_nth_error by lia. f_equal. lia. }
    unfold pqc19_layout.
    rewrite !nth_error_app1 by (rewrite Hrot; lia).
    now split.
  - intros q Hq.
    destruct (nth_error w (2 * Z.to_nat n + (Z.to_nat q - 1))) as [c |] eqn:Hc;
      [| apply nth_error_None in Hc; lia].
    exists c. split; [reflexivity |].
    unfold pqc19_layout.
    rewrite nth_error_app2 by (rewrite Hrot; lia).
    rewrite Hrot.
    replace (2 * Z.to_nat n + (Z.to_nat q - 1) - 2 * Z.to_nat n)%nat
      with (Z.to_nat q - 1)%nat by lia.
    apply controlled_ring_nth.
    + rewrite Htl, nth_error_map, nth_error_seq.
      destruct (Nat.ltb_spec (Z.to_nat q - 1) (Z.to_nat n - 1)) as [_ | Hge];
        [| lia].
      cbn [option_map]. f_equal. lia.
    + now rewrite nth_error_skipn.
Qed.

End Ansatz.

Lemma pqc19_consumption_order_witness :
  (1 <= Model.n_qubits Toy.two_qubits)%Z /\
  Z.of_nat (length [10; 11; 12; 13; 14]%Z)
  = (Model.n_qubits Toy.two_qubits * 3 - 1)%Z /\
  Model._pqc19 (input := Z) Toy.two_qubits [10; 11; 12; 13; 14]%Z []
  = Ok (tt, [RX 10 0; RZ 11 0; RX 12 1; RZ 13 1; CRX 14 1 0]%Z).
Proof.
  split; [cbn; lia |]. split; [reflexivity |].
  destruct (pqc19_consumption_order Z Z unit Toy.two_qubits
              [10; 11; 12; 13; 14]%Z [])
    as (ops & Hrun & Hops & _); [cbn; lia | reflexivity |].
  rewrite Hrun, Hops. reflexivity.
Defined.

(** ** Full circuit evaluation *)

Section Circuit.

Variables scalar input device : Type.

Local Abbreviation op := (operation scalar input).
Local Abbreviation model_t := (Model.t device).

Lemma queue_loop (layout : Z -> list op) (body : Z -> ST (list op) unit) :
  (forall q tape, body q tape = Ok (tt, tape ++ layout q)) ->
  forall qs tape,
    for_each qs (fun q _ => body q) tt tape = Ok (tt, tape ++ flat_map layout qs).
Proof.
  intros Hbody. induction qs as [| q qs IH]; intros tape; cbn [for_each flat_map].
  - unfold sret. now rewrite app_nil_r.
  - unfold sbind. rewrite Hbody, IH. now rewrite <- app_assoc.
Qed.

Lemma iec_queues (self : model_t) (x : input) (tape : list op) :
  Model.iec (scalar := scalar) self x tape
  = Ok (tt, tape ++ map (RY x) (range (Model.n_qubits self))).
Proof.
  unfold Model.iec. unfold sbind at 1.
  rewrite (queue_loop (fun q => [RY x q])) by reflexivity.
  unfold sret.
  replace (flat_map (fun q => [RY x q]) (range (Model.n_qubits self)))
    with (map (RY (scalar := scalar) x) (range (Model.n_qubits self)));
    [reflexivity |].
  induction (range (Model.n_qubits self)) as [| q qs IH]; [reflexivity |].
  cbn. now rewrite IH.
Qed.

Lemma apply_noise_queues (np : noise_params scalar) (q : Z) (tape : list op) :
  Model.apply_noise (input := input) np q tape
  = Ok (tt, tape ++ noise_layout input np q).
Proof.
  unfold Model.apply_noise, sbind, Model.queue, noise_layout.
  now rewrite <- !app_assoc.
Qed.

Lemma layer_queues (self : model_t) (x : input) (np : noise_params scalar)
  (w_l : list scalar) (tape : list op) :
  (1 <= Model.n_qubits self)%Z ->
  Z.of_nat (length w_l) = (Model.n_qubits self * 3 - 1)%Z ->
  (Model.run_pqc self w_l ;;;
   _ <~ for_each (range (Model.n_qubits self))
          (fun q _ => Model.apply_noise np q) tt ;;
   sret tt) (tape ++ map (RY x) (range (Model.n_qubits self)))
  = Ok (tt, tape ++ layer_layout (Model.n_qubits self) x np w_l).
Proof.
  intros Hn Hlen. unfold Model.run_pqc.
  destruct (Model.pqc self).
  unfold sbind at 1. rewrite pqc19_queues by assumption.
  unfold sbind at 1.
  rewrite (queue_loop (noise_layout input np))
    by (intros; apply apply_noise_queues).
  unfold sret, layer_layout. now rewrite <- !app_assoc.
Qed.

Lemma layers_loop (self : model_t) (x : input) (np : noise_params scalar)
  (rows : list (list scalar)) :
  (1 <= Model.n_qubits self)%Z ->
  Forall (fun r => Z.of_nat (length r) = (Model.n_qubits self * 3 - 1)%Z) rows ->
  forall (m s : nat) (tape : list op),
    (s + m <= length rows)%nat ->
    for_each (map Z.of_nat (seq s m))
      (fun l _ =>
         Model.iec self x ;;;
         w_l <~ lift (getitem rows (Z.to_nat l)) ;;
         Model.run_pqc self w_l ;;;
         _ <~ for_each (range (Model.n_qubits self))
                (fun q _ => Model.apply_noise np q) tt ;;
         sret tt) tt tape
    = Ok (tt, tape ++ circuit_layout (Model.n_qubits self) x np
                        (firstn m (skipn s rows))).
Proof.
  intros Hn Hrows. induction m as [| m IH]; intros s tape Hs.
  - cbn. unfold sret. now rewrite app_nil_r.
  - cbn [seq map for_each].
    destruct (getitem_skipn rows s) as (w_l & Hget & Hnth & Hskip); [lia |].
    unfold sbind at 1. unfold sbind at 1. rewrite iec_queues.
    unfold sbind at 1. unfold lift at 1. rewrite Nat2Z.id, Hget.
    rewrite layer_queues; [| assumption |].
    + rewrite IH by lia. rewrite Hskip. cbn [firstn].
      unfold circuit_layout. cbn [flat_map]. now rewrite <- app_assoc.
    + rewrite Forall_forall in Hrows. apply Hrows.
      eapply nth_error_In; eassumption.
Qed.

(** C2: for a weight argument of the required shape and an input [x], the
    circuit function goes through the layers 0..n_layers-1, in each one
    queueing the encoding of the same [x] on every qubit, then the ansatz on
    weight row [l], then per qubit the five channels in the order bit flip,
    phase flip, amplitude damping, phase damping, depolarizing; it returns
    the state if [state_vector] is set, and otherwise the expectation value
    of Pauli-Z on qubit 0. *)
Theorem circuit_layers (self : model_t) (w : weight_array scalar) (x : input)
  (np : noise_params scalar) (tape : list op) :
  (1 <= Model.n_qubits self)%Z ->
  Model.shape_ok self w = true ->
  has_shape (Model.n_layers self) (Model.n_qubits self) (rows_of w) ->
  Model._circuit self w x np tape
  = Ok (if Model.state_vector self then StateMP else ExpvalPauliZ 0,
        tape ++ flat_map
                  (fun w_l =>
                     map (RY x) (range (Model.n_qubits self))
                     ++ pqc19_layout input (Model.n_qubits self) w_l
                     ++ flat_map
                          (fun q =>
                             [BitFlip (bf np) q; PhaseFlip (pf np) q;
                              AmplitudeDamping (ad np) q; PhaseDamping (pd np) q;
                              DepolarizingChannel (dp np) q])
                          (range (Model.n_qubits self)))
                  (rows_of w)).
Proof.
  intros Hn Hok [Hlen Hrows]. unfold Model._circuit. rewrite Hok.
  unfold sbind at 1. unfold range at 1.
  rewrite (layers_loop self x np (rows_of w) Hn Hrows) by lia.
  replace (Z.to_nat (Model.n_layers self)) with (length (rows_of w)) by lia.
  cbn [skipn]. rewrite firstn_all.
  now destruct (Model.state_vector self).
Qed.

End Circuit.

Lemma circuit_layers_witness :
  (1 <= Model.n_qubits Toy.two_qubits)%Z /\
  Model.shape_ok Toy.two_qubits (NdArray [1; 5]%nat [[10; 11; 12; 13; 14]%Z])
  = true /\
  has_shape (Model.n_layers Toy.two_qubits) (Model.n_qubits Toy.two_qubits)
    [[10; 11; 12; 13; 14]%Z] /\
  Model._circuit Toy.two_qubits (NdArray [1; 5]%nat [[10; 11; 12; 13; 14]%Z])
    7%Z (Noise 1 2 3 4 5)%Z []
  = Ok (ExpvalPauliZ 0,
        [RY 7 0; RY 7 1;
         RX 10 0; RZ 11 0; RX 12 1; RZ 13 1; CRX 14 1 0;
         BitFlip 1 0; PhaseFlip 2 0; AmplitudeDamping 3 0; PhaseDamping 4 0;
         DepolarizingChannel 5 0;
         BitFlip 1 1; PhaseFlip 2 1; AmplitudeDamping 3 1; PhaseDamping 4 1;
         DepolarizingChannel 5 1]%Z).
Proof.
  assert (H1 : (1 <= Model.n_qubits Toy.two_qubits)%Z) by (cbn; lia).
  assert (H2 : Model.shape_ok Toy.two_qubits
                 (NdArray [1; 5]%nat [[10; 11; 12; 13; 14]%Z]) = true)
    by reflexivity.
  assert (H3 : has_shape (Model.n_layers Toy.two_qubits)
                 (Model.n_qubits Toy.two_qubits) [[10; 11; 12; 13; 14]%Z]).
  { split; [reflexivity |]. constructor; [reflexivity | constructor]. }
  split; [exact H1 |]. split; [exact H2 |]. split; [exact H3 |].
  rewrite (circuit_layers Z Z unit Toy.two_qubits _ 7%Z (Noise 1 2 3 4 5)%Z []
             H1 H2 H3).
  reflexivity.
Defined.

(** ** The shape assertion *)

Lemma shape_eqb_spec (shape : list nat) (a b : Z) :
  shape_eqb shape (a, b) = true <-> map Z.of_nat shape = [a; b].
Proof.
  unfold shape_eqb. destruct shape as [| r [| c [| d shape]]]; cbn;
    try (split; [discriminate | intros H; discriminate H]).
  rewrite andb_true_iff, !Z.eqb_eq. split.
  - intros [-> ->]. reflexivity.
  - intros H. injection H as -> ->. now split.
Qed.

Section OnlyIndex.

Variables scalar input device S : Type.

Local Abbreviation op := (operation scalar input).

Lemma sret_only_index {A : Type} (a : A) : raises_only_index (S := S) (sret a).
Proof. intros s e H. discriminate H. Qed.

Lemma sbind_only_index {A B : Type} (m : ST S A) (k : A -> ST S B) :
  raises_only_index m -> (forall a, raises_only_index (k a)) ->
  raises_only_index (sbind m k).
Proof.
  intros Hm Hk s e H. unfold sbind in H.
  destruct (m s) as [[a s'] | e'] eqn:E.
  - eapply Hk; eassumption.
  - injection H as <-. eapply Hm; eassumption.
Qed.

Lemma getitem_only_index {A : Type} (row : list A) (i : nat) :
  raises_only_index (S := S) (lift (getitem row i)).
Proof.
  intros s e H. unfold lift, getitem in H.
  destruct (nth_error row i); [discriminate | now injection H as <-].
Qed.

Lemma for_each_only_index {I A : Type} (body : I -> A -> ST S A) :
  (forall i acc, raises_only_index (body i acc)) ->
  forall xs acc, raises_only_index (for_each xs body acc).
Proof.
  intros Hbody. induction xs as [| i xs IH]; intros acc; cbn [for_each].
  - apply sret_only_index.
  - apply sbind_only_index; [apply Hbody | intros a; apply IH].
Qed.

Lemma queue_only_index (o : op) : raises_only_index (Model.queue o).
Proof. intros s e H. discriminate H. Qed.

End OnlyIndex.

Create HintDb only_index.

#[local] Hint Resolve sret_only_index sbind_only_index getitem_only_index
  for_each_only_index queue_only_index : only_index.

Section ShapeAssertion.

Variables scalar input device : Type.

Local Abbreviation op := (operation scalar input).
Local Abbreviation model_t := (Model.t device).

Lemma pqc19_only_index (self : model_t) (w : list scalar) :
  raises_only_index (Model._pqc19 (input := input) self w).
Proof.
  unfold Model._pqc19.
  apply sbind_only_index; [apply for_each_only_index |]; intros.
  - auto 10 with only_index.
  - apply sbind_only_index; [apply for_each_only_index |]; intros.
    + destruct (i >? 0)%Z; auto 10 with only_index.
    + auto with only_index.
Qed.

Lemma layers_only_index (self : model_t) (w : weight_array scalar) (x : input)
  (np : noise_params scalar) :
  raises_only_index
    (_ <~ for_each (range (Model.n_layers self))
            (fun l _ =>
               Model.iec self x ;;;
               w_l <~ lift (getitem (rows_of w) (Z.to_nat l)) ;;
               Model.run_pqc self w_l ;;;
               _ <~ for_each (range (Model.n_qubits self))
                      (fun q _ => Model.apply_noise np q) tt ;;
               sret tt) tt ;;
     if Model.state_vector self then sret StateMP else sret (ExpvalPauliZ 0)).
Proof.
  apply sbind_only_index.
  - apply for_each_only_index. intros l [].
    apply sbind_only_index.
    { unfold Model.iec. auto 10 with only_index. }
    intros _. apply sbind_only_index; [auto with only_index |].
    intros w_l. apply sbind_only_index.
    { unfold Model.run_pqc. destruct (Model.pqc self). apply pqc19_only_index. }
    intros _. apply sbind_only_index; [| auto with only_index].
    apply for_each_only_index. intros q [].
    unfold Model.apply_noise. auto 10 with only_index.
  - intros _. destruct (Model.state_vector self); auto with only_index.
Qed.

(** The circuit function raises the assertion error exactly on an array,
    not a list, whose shape is not the stored [n_params]. *)
Lemma circuit_assertion (self : model_t) (w : weight_array scalar) (x : input)
  (np : noise_params scalar) (tape : list op) :
  Model._circuit self w x np tape = Raise AssertionError <->
  exists shape rows,
    w = NdArray shape rows /\
    map Z.of_nat shape
    <> [fst (Model.n_params self); snd (Model.n_params self)].
Proof.
  unfold Model._circuit. split.
  - destruct (Model.shape_ok self w) eqn:Hok.
    + intros H. apply layers_only_index in H. discriminate H.
    + intros _. destruct w as [rows | shape rows]; [discriminate Hok |].
      exists shape, rows. split; [reflexivity |].
      cbn in Hok. intros Heq.
      destruct (Model.n_params self) as [a b]. cbn [fst snd] in Heq.
      apply shape_eqb_spec in Heq. congruence.
  - intros (shape & rows & -> & Hne). cbn [Model.shape_ok].
    destruct (shape_eqb shape (Model.n_params self)) eqn:Heq; [| reflexivity].
    destruct (Model.n_params self) as [a b]. cbn [fst snd] in Hne.
    apply shape_eqb_spec in Heq. contradiction.
Qed.

End ShapeAssertion.

(** ** Model construction *)

Section Construction.

Variable device : Type.
Variable qml_device : Z -> result device.

(** C8, as the code has it: constructing a [Model] fails, with the
    attribute error of the dynamic lookup, for every ansatz id other than
    19; for id 19 the qubit and layer counts are not checked: construction
    succeeds whenever the device for [n_qubits] wires is created, whatever
    [n_layers] is, and otherwise raises what device creation raises. *)
Theorem model_construction (circuit_type n_qubits n_layers : Z)
  (state_vector : bool) :
  (circuit_type <> 19%Z ->
   Model.__init__ qml_device n_qubits n_layers circuit_type state_vector
   = Raise AttributeError) /\
  (circuit_type = 19%Z ->
   forall d, qml_device n_qubits = Ok d ->
     Model.__init__ qml_device n_qubits n_layers circuit_type state_vector
     = Ok (Model.Build n_qubits n_layers state_vector Circuit19
             (n_layers, n_qubits * 3 - 1)%Z d)) /\
  (circuit_type = 19%Z ->
   forall e, qml_device n_qubits = Raise e ->
     Model.__init__ qml_device n_qubits n_layers circuit_type state_vector
     = Raise e).
Proof.
  unfold Model.__init__, Model.lookup_pqc, Model.lookup_n_params.
  repeat split.
  - intros Hne. destruct (Z.eqb_spec circuit_type 19); [contradiction |].
    reflexivity.
  - intros -> d Hd. cbn. now rewrite Hd.
  - intros -> e He. cbn. now rewrite He.
Qed.

End Construction.

Lemma model_construction_witness :
  (7 <> 19)%Z /\
  Model.__init__ Toy.qml_device 2 4 7 false = Raise AttributeError /\
  Toy.qml_device 2 = Ok tt /\
  Model.__init__ Toy.qml_device 2 (-4) 19 false
  = Ok (Model.Build 2 (-4) false Circuit19 (-4, 5)%Z tt).
Proof.
  destruct (model_construction unit Toy.qml_device 7 2 4 false) as (H7 & _ & _).
  destruct (model_construction unit Toy.qml_device 19 2 (-4) false)
    as (_ & H19 & _).
  split; [lia |]. split; [apply H7; lia |]. split; [reflexivity |].
  apply (H19 eq_refl tt). reflexivity.
Defined.

(** C8 fails as stated: a layer count of zero is accepted. *)
Lemma model_construction_counterexample :
  (0 <= 0)%Z /\
  Model.__init__ Toy.qml_device 1 0 19 false
  = Ok (Model.Build 1 0 false Circuit19 (0, 2)%Z tt).
Proof. split; [lia | reflexivity]. Qed.

(** ** Batched inputs *)

Section Batches.

Variable device : Type.
Variable xs : list R.
Variable i : nat.

Local Abbreviation op := (operation R (list R)).
Local Abbreviation tracks := (tracks xs i).

Lemma tracks_sret {A : Type} (a : A) : tracks (sret a) (sret a).
Proof.
  intros t a0 t' Ht [= <- <-]. split; [exact Ht |].
  split; [exists []; now rewrite app_nil_r | reflexivity].
Qed.

Lemma tracks_lift {A : Type} (r : result A) : tracks (lift r) (lift r).
Proof.
  intros t a t' Ht H. unfold lift in *. destruct r; [| discriminate].
  injection H as <- <-. split; [exact Ht |].
  split; [exists []; now rewrite app_nil_r | reflexivity].
Qed.

Lemma tracks_queue (o : op) :
  encodes xs o -> tracks (Model.queue o) (Model.queue (at_point i o)).
Proof.
  intros Ho t a t' Ht [= <- <-]. split.
  - apply Forall_app. split; [exact Ht | now constructor].
  - split; [now exists [o] |].
    unfold Model.queue. now rewrite map_app.
Qed.

Lemma tracks_sbind {A B : Type} (m m' : ST (list op) A)
  (k k' : A -> ST (list op) B) :
  tracks m m' -> (forall a, tracks (k a) (k' a)) ->
  tracks (sbind m k) (sbind m' k').
Proof.
  intros Hm Hk t b t' Ht H. unfold sbind in *.
  destruct (m t) as [[a t1] | e] eqn:E; [| discriminate].
  destruct (Hm t a t1 Ht E) as (Ht1 & (s1 & ->) & ->).
  destruct (Hk a _ b t' Ht1 H) as (Ht' & (s2 & ->) & ->).
  split; [exact Ht' |]. split; [| reflexivity].
  exists (s1 ++ s2). now rewrite app_assoc.
Qed.

Lemma tracks_for_each {I A : Type} (body body' : I -> A -> ST (list op) A) :
  (forall q acc, tracks (body q acc) (body' q acc)) ->
  forall qs acc, tracks (for_each qs body acc) (for_each qs body' acc).
Proof.
  intros Hbody. induction qs as [| q qs IH]; intros acc; cbn [for_each].
  - apply tracks_sret.
  - apply tracks_sbind; [apply Hbody | intros a; apply IH].
Qed.

Lemma tracks_pqc (self : Model.t device) (w : list R) :
  tracks (Model.run_pqc self w) (Model.run_pqc self w).
Proof.
  unfold Model.run_pqc. destruct (Model.pqc self). unfold Model._pqc19.
  apply tracks_sbind.
  - apply tracks_for_each. intros q k.
    apply tracks_sbind; [apply tracks_lift | intros a].
    apply tracks_sbind; [now apply (tracks_queue (RX a q)) | intros _].
    apply tracks_sbind; [apply tracks_lift | intros b].
    apply tracks_sbind; [now apply (tracks_queue (RZ b q)) | intros _].
    apply tracks_sret.
  - intros k. apply tracks_sbind; [| intros; apply tracks_sret].
    apply tracks_for_each. intros q k'.
    destruct (q >? 0)%Z; [| apply tracks_sret].
    apply tracks_sbind; [apply tracks_lift | intros c].
    apply tracks_sbind; [| intros _; apply tracks_sret].
    now apply (tracks_queue (CRX c q ((q + 1) mod Model.n_qubits self)%Z)).
Qed.

Lemma tracks_noise (np : noise_params R) (q : Z) :
  tracks (Model.apply_noise np q) (Model.apply_noise np q).
Proof.
  unfold Model.apply_noise.
  apply tracks_sbind; [now apply (tracks_queue (BitFlip (bf np) q)) | intros _].
  apply tracks_sbind; [now apply (tracks_queue (PhaseFlip (pf np) q)) | intros _].
  apply tracks_sbind;
    [now apply (tracks_queue (AmplitudeDamping (ad np) q)) | intros _].
  apply tracks_sbind; [now apply (tracks_queue (PhaseDamping (pd np) q)) | intros _].
  now apply (tracks_queue (DepolarizingChannel (dp np) q)).
Qed.

Lemma tracks_iec (self : Model.t device) :
  tracks (Model.iec self xs) (Model.iec self [nth i xs 0]).
Proof.
  unfold Model.iec.
  apply tracks_sbind; [| intros; apply tracks_sret].
  apply tracks_for_each. intros q _.
  now apply (tracks_queue (RY xs q)).
Qed.

Lemma tracks_circuit (self : Model.t device) (w : weight_array R)
  (np : noise_params R) :
  tracks (Model._circuit self w xs np) (Model._circuit self w [nth i xs 0] np).
Proof.
  unfold Model._circuit. destruct (Model.shape_ok self w); [| apply tracks_lift].
  apply tracks_sbind.
  - apply tracks_for_each. intros l _.
    apply tracks_sbind; [apply tracks_iec | intros _].
    apply tracks_sbind; [apply tracks_lift | intros w_l].
    apply tracks_sbind; [apply tracks_pqc | intros _].
    apply tracks_sbind; [| intros; apply tracks_sret].
    apply tracks_for_each. intros q _. apply tracks_noise.
  - intros _. destruct (Model.state_vector self); apply tracks_sret.
Qed.

(** With a qubit and a layer, a recorded circuit contains an encoding gate. *)
Lemma circuit_encodes (self : Model.t device) (w : weight_array R)
  (np : noise_params R) (meas : measurement) (tape : list op) :
  (1 <= Model.n_qubits self)%Z -> (1 <= Model.n_layers self)%Z ->
  Model._circuit self w xs np [] = Ok (meas, tape) ->
  existsb is_RY tape = true.
Proof.
  intros Hq Hl. unfold Model._circuit.
  destruct (Model.shape_ok self w); [| discriminate].
  unfold sbind at 1.
  rewrite (range_cons (Model.n_layers self) Hl). cbn [for_each].
  unfold sbind at 1. unfold sbind at 1.
  rewrite iec_queues. cbn [app].
  set (rest := sbind _ _).
  destruct (rest _) as [[[] t1] | e] eqn:E1; [| discriminate].
  assert (Hrest : tracks rest rest).
  { subst rest.
    apply tracks_sbind; [apply tracks_lift | intros w_l].
    apply tracks_sbind; [apply tracks_pqc | intros _].
    apply tracks_sbind; [| intros; apply tracks_sret].
    apply tracks_for_each. intros q _. apply tracks_noise. }
  assert (Henc : Forall (encodes xs) (map (RY (scalar := R) xs)
                                        (range (Model.n_qubits self)))).
  { apply Forall_forall. intros o Ho. apply in_map_iff in Ho.
    destruct Ho as (q & <- & _). reflexivity. }
  destruct (Hrest _ _ _ Henc E1) as (Ht1 & (s1 & ->) & _).
  set (loop := for_each _ _ tt).
  destruct (loop _) as [[[] t2] | e] eqn:E2; [| discriminate].
  assert (Hloop : exists loop', tracks loop loop').
  { subst loop. eexists. apply tracks_for_each. intros l u.
    apply tracks_sbind; [apply tracks_iec | intros u1].
    apply tracks_sbind; [apply tracks_lift | intros w_l].
    apply tracks_sbind; [apply tracks_pqc | intros u2].
    apply tracks_sbind; [| intros u3; apply tracks_sret].
    apply tracks_for_each. intros q u3. apply tracks_noise. }
  destruct Hloop as [loop' Hloop].
  destruct (Hloop _ _ _ Ht1 E2) as (_ & (s2 & ->) & _).
  intros H.
  assert (Ht : tape = (map (RY (scalar := R) xs) (range (Model.n_qubits self))
                       ++ s1) ++ s2).
  { destruct (Model.state_vector self); unfold sret in H; now injection H. }
  rewrite Ht, !existsb_app, (range_cons (Model.n_qubits self) Hq).
  reflexivity.
Qed.

End Batches.

(** ** The training engine *)

Section Engine.

Variables device optstate labels : Type.
Variable qml_device : Z -> result device.
Variable execute :
  device -> list (operation R (list R)) -> measurement -> result (list R).
Variable rng_random : Z -> Z -> Z -> result (list (list R)).
Variable AdamOptimizer : R -> optstate.
Variable step_and_cost :
  optstate -> (weight_array R -> result R) -> weight_array R ->
  result (weight_array R * R * optstate).
Variable coefficients :
  (list R -> result (list R)) -> Z -> Z -> result (list complex).
Variable _extract_data_and_labels :
  list (list complex) -> result (labels * fourier_data).

Local Abbreviation instructor_t := (Instructor.t device optstate).
Local Abbreviation forward := (Instructor.forward execute).
Local Abbreviation cost := (Instructor.cost execute).
Local Abbreviation objective := (Instructor.objective execute).
Local Abbreviation step := (Instructor.step execute step_and_cost).
Local Abbreviation calc_hist :=
  (Instructor.calc_hist execute coefficients _extract_data_and_labels).

Lemma forward_assertion (self : instructor_t) (x : list R)
  (shape : list nat) (rows : list (list R)) (np : noise_params R) :
  map Z.of_nat shape
  <> [fst (Model.n_params (Instructor.model self));
      snd (Model.n_params (Instructor.model self))] ->
  forward x (Some (NdArray shape rows)) np self = Raise AssertionError.
Proof.
  intros Hne. unfold Instructor.forward, Model.__call__.
  assert (H : Model._circuit (Instructor.model self) (NdArray shape rows) x np []
              = Raise AssertionError).
  { apply circuit_assertion. now exists shape, rows. }
  now rewrite H.
Qed.

Lemma cost_assertion (self : instructor_t) (y : list R)
  (shape : list nat) (rows : list (list R)) (np : noise_params R) :
  map Z.of_nat shape
  <> [fst (Model.n_params (Instructor.model self));
      snd (Model.n_params (Instructor.model self))] ->
  cost (NdArray shape rows) y np self = Raise AssertionError.
Proof.
  intros Hne. unfold Instructor.cost. unfold sbind at 1.
  now rewrite forward_assertion.
Qed.

(** C4, as the code has it: the shape assertion guards arrays only.  The
    circuit function raises the assertion error if and only if the weights
    are an array, not a Python list, whose shape is not
    [(n_layers, n_qubits*3 - 1)]; for such an array [forward] and [cost]
    fail with it, and so does [step] on a non-empty argument that
    [np.array] turns into such an array, the optimizer passing on what the
    objective raises. *)
Theorem shape_assertion (self : instructor_t) :
  propagates step_and_cost ->
  let m := Instructor.model self in
  Model.n_params m = (Model.n_layers m, Model.n_qubits m * 3 - 1)%Z ->
  (forall (w : weight_array R) (x : list R) np tape,
     Model._circuit m w x np tape = Raise AssertionError <->
     exists shape rows,
       w = NdArray shape rows /\
       map Z.of_nat shape <> [Model.n_layers m; Model.n_qubits m * 3 - 1]%Z) /\
  (forall shape rows,
     map Z.of_nat shape <> [Model.n_layers m; Model.n_qubits m * 3 - 1]%Z ->
     (forall x np,
        forward x (Some (NdArray shape rows)) np self = Raise AssertionError) /\
     (forall y np, cost (NdArray shape rows) y np self = Raise AssertionError) /\
     (forall w np n,
        len w = Ok (S n) -> np_array w = Ok (NdArray shape rows) ->
        step w np self = Raise AssertionError)).
Proof.
  intros Hprop m Hparams. split.
  - intros w x np tape. rewrite circuit_assertion.
    fold m. now rewrite Hparams.
  - intros shape rows Hne.
    assert (Hne' : map Z.of_nat shape
                   <> [fst (Model.n_params m); snd (Model.n_params m)])
      by now rewrite Hparams.
    repeat split.
    + intros x np. now apply forward_assertion.
    + intros y np. now apply cost_assertion.
    + intros w np n Hlen Harr. unfold Instructor.step.
      rewrite Hlen. cbn [rbind Nat.eqb]. rewrite Harr. cbn [rbind].
      rewrite (Hprop _ _ _ AssertionError); [reflexivity |].
      unfold Instructor.objective. now rewrite cost_assertion.
Qed.

(** *** Frame: what the methods leave untouched *)

Lemma forward_frame (self s' : instructor_t) x wopt np (r : list R) :
  forward x wopt np self = Ok (r, s') -> s' = self.
Proof.
  unfold Instructor.forward, lift.
  destruct (Model.__call__ _ _ _ _ _); [| discriminate].
  now intros [= _ <-].
Qed.

Lemma cost_frame (self s' : instructor_t) w y np (c : R) :
  cost w y np self = Ok (c, s') -> s' = self.
Proof.
  unfold Instructor.cost. unfold sbind at 1.
  destruct (forward _ _ _ self) as [[y_pred s1] | e] eqn:Hf; [| discriminate].
  apply forward_frame in Hf. subst s1.
  unfold sbind, lift, sret.
  destruct (broadcast2 _ _ _); [| discriminate].
  now intros [= _ <-].
Qed.

Lemma objective_cost (self : instructor_t) y np w (c : R) :
  objective self y np w = Ok c <-> cost w y np self = Ok (c, self).
Proof.
  unfold Instructor.objective, rmap, rbind. split.
  - destruct (cost w y np self) as [[c0 s'] | e] eqn:Hc; [| discriminate].
    apply cost_frame in Hc as Hs. subst s'. now intros [= <-].
  - now intros ->.
Qed.

(** *** One optimizer step *)

(** C1: [step] takes the stored initial weights when its argument is empty,
    hands the optimizer the cost over the fixed training domain and targets
    as the objective, once, and returns the weights the optimizer returns
    together with the cost at the weights the step started from; nothing of
    the instance but the optimizer state changes. *)
Theorem step_once (self : instructor_t) (w w0 : weight_array R)
  (np : noise_params R) (n : nat) :
  returns_objective step_and_cost ->
  len w = Ok n ->
  np_array (if (n =? 0)%nat then Instructor.weights self else w) = Ok w0 ->
  step w np self
  = (r <- step_and_cost (Instructor.opt self)
            (fun v => rmap fst (cost v (Instructor.y_d self) np self)) w0 ;;
     Ok (fst r, Instructor.set_opt self (snd r))) /\
  forall w' c self',
    step w np self = Ok ((w', c), self') ->
    step_and_cost (Instructor.opt self)
      (fun v => rmap fst (cost v (Instructor.y_d self) np self)) w0
    = Ok (w', c, Instructor.opt self') /\
    cost w0 (Instructor.y_d self) np self = Ok (c, self) /\
    self' = Instructor.set_opt self (Instructor.opt self').
Proof.
  intros Hobj Hlen Harr.
  assert (Hstep : step w np self
                  = (r <- step_and_cost (Instructor.opt self)
                            (objective self (Instructor.y_d self) np) w0 ;;
                     Ok (fst r, Instructor.set_opt self (snd r)))).
  { unfold Instructor.step. rewrite Hlen. cbn [rbind]. now rewrite Harr. }
  split; [exact Hstep |].
  intros w' c self' Hrun. rewrite Hstep in Hrun.
  destruct (step_and_cost _ _ w0) as [[[w1 c1] st1] | e] eqn:Hopt;
    [| discriminate Hrun].
  cbn in Hrun. injection Hrun as -> -> <-.
  apply Hobj in Hopt as Hc. apply objective_cost in Hc.
  split; [reflexivity |]. split; [exact Hc | reflexivity].
Qed.

(** *** The stored fields over sequences of calls *)

Local Abbreviation run1 :=
  (run_call execute step_and_cost coefficients _extract_data_and_labels).
Local Abbreviation runs :=
  (run_calls execute step_and_cost coefficients _extract_data_and_labels).

Lemma set_opt_same (self : instructor_t) :
  Instructor.set_opt self (Instructor.opt self) = self.
Proof. now destruct self. Qed.

Lemma step_frame (self s' : instructor_t) w np (r : weight_array R * R) :
  step w np self = Ok (r, s') ->
  s' = Instructor.set_opt self (Instructor.opt s').
Proof.
  unfold Instructor.step, rbind.
  destruct (len w); [| discriminate].
  destruct (np_array _); [| discriminate].
  destruct (step_and_cost _ _ _) as [[r1 st1] | e]; [| discriminate].
  now intros [= _ <-].
Qed.

Lemma calc_hist_frame (self s' : instructor_t) w np (r : nat * hist_data) :
  calc_hist w np self = Ok (r, s') -> s' = self.
Proof.
  unfold Instructor.calc_hist, rbind.
  destruct (coefficients _ _ _); [| discriminate].
  destruct (_extract_data_and_labels _); [| discriminate].
  destruct (getitem _ _); [| discriminate].
  destruct (broadcast2_rows _ _ _); [| discriminate].
  now intros [= _ <-].
Qed.

Lemma run_call_frame (c : call) (self : instructor_t) :
  run1 c self
  = Instructor.set_opt self (Instructor.opt (run1 c self)).
Proof.
  destruct c as [x wopt np | w y np | w np | w np]; unfold run_call, after.
  - destruct (forward x wopt np self) as [[r s'] | e] eqn:H;
      [apply forward_frame in H; subst s' |]; now rewrite set_opt_same.
  - destruct (cost w y np self) as [[r s'] | e] eqn:H;
      [apply cost_frame in H; subst s' |]; now rewrite set_opt_same.
  - destruct (step w np self) as [[r s'] | e] eqn:H;
      [now apply step_frame in H | now rewrite set_opt_same].
  - destruct (calc_hist w np self) as [[r s'] | e] eqn:H;
      [apply calc_hist_frame in H; subst s' |]; now rewrite set_opt_same.
Qed.

Lemma run_calls_frame (calls : list call) :
  forall self : instructor_t,
    runs calls self
    = Instructor.set_opt self (Instructor.opt (runs calls self)).
Proof.
  induction calls as [| c calls IH]; intros self; unfold run_calls;
    cbn [fold_left].
  - now rewrite set_opt_same.
  - fold (runs calls (run1 c self)).
    rewrite IH at 1. now rewrite run_call_frame at 1.
Qed.

Lemma objective_set_opt (self : instructor_t) (o : optstate) y np :
  objective (Instructor.set_opt self o) y np = objective self y np.
Proof.
  apply functional_extensionality. intros w.
  unfold Instructor.objective, Instructor.cost, Instructor.forward, rmap, rbind,
    sbind, lift, sret.
  cbn [Instructor.set_opt Instructor.model Instructor.x_d].
  destruct (Model.__call__ _ _ _ _ _); [| reflexivity].
  now destruct (broadcast2 _ _ _).
Qed.

(** C10: [forward], [cost] and [calc_hist] return the instance as it was,
    and [step] changes nothing but the optimizer state; so after any
    sequence of calls the stored [weights], [x_d] and [y_d] (and the model)
    are those of the start, and [step] with an empty argument starts from
    the initial weights of the start. *)
Theorem instructor_frame (self : instructor_t) :
  (forall x wopt np r s', forward x wopt np self = Ok (r, s') -> s' = self) /\
  (forall w y np c s', cost w y np self = Ok (c, s') -> s' = self) /\
  (forall w np r s', calc_hist w np self = Ok (r, s') -> s' = self) /\
  (forall w np r s',
     step w np self = Ok (r, s') ->
     Instructor.weights s' = Instructor.weights self /\
     Instructor.x_d s' = Instructor.x_d self /\
     Instructor.y_d s' = Instructor.y_d self /\
     Instructor.model s' = Instructor.model self) /\
  (forall calls,
     let s := runs calls self in
     Instructor.weights s = Instructor.weights self /\
     Instructor.x_d s = Instructor.x_d self /\
     Instructor.y_d s = Instructor.y_d self /\
     Instructor.model s = Instructor.model self /\
     forall np,
       step (PyList []) np s
       = (w0 <- np_array (Instructor.weights self) ;;
          r <- step_and_cost (Instructor.opt s)
                 (fun v => rmap fst (cost v (Instructor.y_d self) np self)) w0 ;;
          Ok (fst r, Instructor.set_opt s (snd r)))).
Proof.
  split; [intros; eapply forward_frame; eassumption |].
  split; [intros; eapply cost_frame; eassumption |].
  split; [intros; eapply calc_hist_frame; eassumption |].
  split.
  - intros w np r s' H. apply step_frame in H. rewrite H. now cbn.
  - intros calls s.
    assert (Hs : s = Instructor.set_opt self (Instructor.opt s))
      by apply run_calls_frame.
    clearbody s.
    repeat (split; [rewrite Hs; reflexivity |]).
    intros np. unfold Instructor.step. cbn [len length rbind Nat.eqb].
    replace (Instructor.weights s) with (Instructor.weights self)
      by (rewrite Hs; reflexivity).
    replace (Instructor.y_d s) with (Instructor.y_d self)
      by (rewrite Hs; reflexivity).
    replace (objective s (Instructor.y_d self) np)
      with (objective self (Instructor.y_d self) np)
      by (rewrite Hs; now rewrite objective_set_opt).
    reflexivity.
Qed.

(** *** Forward evaluation *)

Lemma circuit_measurement (m : Model.t device) (w : weight_array R)
  (x : list R) (np : noise_params R) (t tape : list (operation R (list R)))
  (meas : measurement) :
  Model._circuit m w x np t = Ok (meas, tape) ->
  meas = if Model.state_vector m then StateMP else ExpvalPauliZ 0.
Proof.
  unfold Model._circuit. destruct (Model.shape_ok m w); [| discriminate].
  unfold sbind. destruct (for_each _ _ _ _) as [[u t1] | e]; [| discriminate].
  destruct (Model.state_vector m); unfold sret; now intros [= <- _].
Qed.

(** C9: [forward] returns the instance as it was, so a second call with the
    same arguments returns the same result, also after other calls on the
    instance; with parameter broadcasting on the device, a model of at
    least one qubit and one layer that measures an expectation value
    returns one value per entry of the input, the value of that entry, in
    the order of the input. *)
Theorem forward_pure (self : instructor_t) (xs : list R)
  (wopt : option (weight_array R)) (np : noise_params R) :
  broadcasts execute ->
  (forall r s',
     forward xs wopt np self = Ok (r, s') ->
     s' = self /\ forward xs wopt np s' = Ok (r, s')) /\
  (forall calls,
     rmap fst (forward xs wopt np (runs calls self))
     = rmap fst (forward xs wopt np self)) /\
  ((1 <= Model.n_qubits (Instructor.model self))%Z ->
   (1 <= Model.n_layers (Instructor.model self))%Z ->
   Model.state_vector (Instructor.model self) = false ->
   forall ys s',
     forward xs wopt np self = Ok (ys, s') ->
     length ys = length xs /\
     forall i, (i < length xs)%nat ->
       forward [nth i xs 0] wopt np self = Ok ([nth i ys 0], self)).
Proof.
  intros Hbroadcast. split; [| split].
  - intros r s' H. apply forward_frame in H as Hs. subst s'. now split.
  - intros calls.
    rewrite (run_calls_frame calls self).
    generalize (Instructor.opt (runs calls self)). intros o.
    unfold Instructor.forward, rmap, rbind, lift.
    cbn [Instructor.set_opt Instructor.model Instructor.weights].
    now destruct (Model.__call__ _ _ _ _ _).
  - intros Hq Hl Hsv ys s'.
    unfold Instructor.forward, lift, Model.__call__, rbind.
    set (w := match wopt with Some w => w | None => Instructor.weights self end).
    set (m := Instructor.model self) in *.
    destruct (Model._circuit m w xs np []) as [[meas tape] | e] eqn:Hc;
      [| discriminate].
    cbn [fst snd].
    apply circuit_measurement in Hc as Hmeas. rewrite Hsv in Hmeas. subst meas.
    destruct (execute (Model.dev m) tape (ExpvalPauliZ 0)) as [ys0 | e] eqn:He;
      [| discriminate].
    intros [= -> _].
    assert (Htape : Forall (encodes xs) tape).
    { now destruct (tracks_circuit device xs 0 m w np [] _ _ (Forall_nil _) Hc). }
    destruct (Hbroadcast _ _ _ _ _ Htape
                (circuit_encodes device xs 0%nat m w np _ _ Hq Hl Hc) He)
      as [Hlen Hpt].
    split; [exact Hlen |]. intros i Hi.
    destruct (tracks_circuit device xs i m w np [] _ _ (Forall_nil _) Hc)
      as (_ & _ & Hci).
    cbn [map] in Hci. rewrite Hci. cbn [fst snd].
    now rewrite (Hpt i Hi).
Qed.

(** *** Construction: the training domain and the targets *)

Lemma PI_upper : PI <= 19 / 6.
Proof.
  destruct (PI_2_3_7_ineq 1) as [_ H].
  cbn [Nat.mul Nat.add sum_f_R0] in H.
  unfold tg_alt, PI_2_3_7_tg, Ratan_seq in H.
  cbn [Nat.mul Nat.add pow INR] in H.
  lra.
Qed.

Lemma PI_lower : 3 < PI.
Proof. pose proof PI2_3_2. lra. Qed.

Lemma np_ceil_spec (x : R) (z : Z) :
  IZR z - 1 < x -> x <= IZR z -> np_ceil x = z.
Proof.
  intros Hlo Hhi. unfold np_ceil.
  assert (H : (1 - z)%Z = up (- x)).
  { apply tech_up; rewrite minus_IZR; lra. }
  lia.
Qed.

Lemma n_d_value : Instructor.n_d = 19%Z.
Proof.
  unfold Instructor.n_d, Instructor.x_domain, Instructor.omega_d.
  cbn [map np_max fold_left].
  pose proof PI_lower as Hlo. pose proof PI_upper as Hhi.
  replace (Rabs (-1 * PI)) with PI
    by (rewrite Rabs_left; lra).
  replace (Rabs (1 * PI)) with PI
    by (rewrite Rabs_right; lra).
  replace (Rmax PI PI) with PI by (now rewrite Rmax_left by lra).
  replace (Rmax (Rmax 1 2) 3) with 3
    by (rewrite (Rmax_right 1 2) by lra; now rewrite Rmax_right by lra).
  apply np_ceil_spec; lra.
Qed.

Lemma linspace_nth (start stop : R) (num i : nat) :
  (i < num)%nat ->
  nth i (np_linspace start stop num) 0
  = INR i * ((stop - start) / INR (num - 1)) + start.
Proof.
  intros Hi. unfold np_linspace. cbv zeta.
  set (f := fun k : nat => INR k * ((stop - start) / INR (num - 1)) + start).
  rewrite (nth_indep _ 0 (f 0%nat)) by now rewrite length_map, length_seq.
  rewrite map_nth, seq_nth by assumption. reflexivity.
Qed.

Lemma y_fct_value (x : R) :
  Instructor.y_fct x = 1 / sqrt 14 * (cos x + cos (2 * x) + cos (3 * x)).
Proof.
  unfold Instructor.y_fct, np_norm, np_sum, Instructor.omega_d.
  cbn [map fold_right].
  replace (1 ^ 2 + (2 ^ 2 + (3 ^ 2 + 0))) with 14 by lra.
  replace (1 * x) with x by lra.
  f_equal. lra.
Qed.

Lemma init_fields (n_qubits n_layers seed : Z) (self : instructor_t) :
  Instructor.__init__ qml_device rng_random AdamOptimizer n_qubits n_layers seed
  = Ok self ->
  exists d u,
    qml_device n_qubits = Ok d /\
    rng_random seed n_layers (n_qubits * 3 - 1)%Z = Ok u /\
    Instructor.max_freq self = (n_qubits * n_layers)%Z /\
    Instructor.model self
    = Model.Build n_qubits n_layers false Circuit19
        (n_layers, n_qubits * 3 - 1)%Z d /\
    Instructor.x_d self = np_linspace (-1 * PI) (1 * PI) (Z.to_nat Instructor.n_d) /\
    Instructor.y_d self = map Instructor.y_fct (Instructor.x_d self) /\
    Instructor.weights self
    = NdArray [Z.to_nat n_layers; Z.to_nat (n_qubits * 3 - 1)]
        (map (map (fun r => 2 * PI * (1 - 2 * r))) u) /\
    Instructor.opt self = AdamOptimizer 0.05.
Proof.
  unfold Instructor.__init__, Model.__init__. cbn [Model.lookup_pqc
    Model.lookup_n_params Z.eqb Pos.eqb rbind].
  destruct (qml_device n_qubits) as [d | e]; [| discriminate].
  cbn [rbind].
  destruct (rng_random seed n_layers _) as [u | e]; [| discriminate].
  cbn [rbind]. intros [= <-]. exists d, u. now cbn.
Qed.

(** C7: whatever the seed, construction makes the training domain the
    uniform grid of [ceil(2 * max|domain| * max(1, 2, 3)) = ceil(6*pi) = 19]
    points from [-pi] to [pi], and the target at each point [x] the value
    [(cos x + cos 2x + cos 3x) / ||(1, 2, 3)||]; it succeeds when device
    creation and the random generator do. *)
Theorem training_domain (n_qubits n_layers seed : Z) :
  Instructor.n_d = np_ceil (2 * PI * 3) /\
  Instructor.n_d = 19%Z /\
  (forall self : instructor_t,
     Instructor.__init__ qml_device rng_random AdamOptimizer
       n_qubits n_layers seed = Ok self ->
     length (Instructor.x_d self) = 19%nat /\
     (forall i, (i < 19)%nat ->
        nth i (Instructor.x_d self) 0 = - PI + INR i * (2 * PI / 18)) /\
     nth 0 (Instructor.x_d self) 0 = - PI /\
     nth 18 (Instructor.x_d self) 0 = PI /\
     length (Instructor.y_d self) = 19%nat /\
     Instructor.y_d self
     = map (fun x => 1 / sqrt (1 ^ 2 + 2 ^ 2 + 3 ^ 2)
                     * (cos (1 * x) + cos (2 * x) + cos (3 * x)))
           (Instructor.x_d self)) /\
  (forall d u,
     qml_device n_qubits = Ok d ->
     rng_random seed n_layers (n_qubits * 3 - 1)%Z = Ok u ->
     exists self : instructor_t,
       Instructor.__init__ qml_device rng_random AdamOptimizer
         n_qubits n_layers seed = Ok self).
Proof.
  split; [| split; [exact n_d_value | split]].
  - rewrite n_d_value. symmetry.
    pose proof PI_lower. pose proof PI_upper.
    apply np_ceil_spec; lra.
  - intros self Hinit.
    destruct (init_fields _ _ _ _ Hinit) as (d & u & _ & _ & _ & _ & Hx & Hy & _).
    rewrite n_d_value in Hx. change (Z.to_nat 19) with 19%nat in Hx.
    assert (Hnth : forall i, (i < 19)%nat ->
              nth i (Instructor.x_d self) 0 = - PI + INR i * (2 * PI / 18)).
    { intros i Hi. rewrite Hx, linspace_nth by assumption.
      replace (INR (19 - 1)) with 18 by (cbn; lra). lra. }
    assert (Hlen : length (Instructor.x_d self) = 19%nat).
    { rewrite Hx. unfold np_linspace. now rewrite length_map, length_seq. }
    split; [exact Hlen |]. split; [exact Hnth |].
    split; [rewrite Hnth by lia; cbn; lra |].
    split; [rewrite Hnth by lia; replace (INR 18) with 18 by (cbn; lra); lra |].
    split; [rewrite Hy, length_map; exact Hlen |].
    rewrite Hy. apply map_ext. intros x. rewrite y_fct_value.
    replace (1 ^ 2 + 2 ^ 2 + 3 ^ 2) with 14 by lra.
    replace (1 * x) with x by lra. reflexivity.
  - intros d u Hd Hu.
    unfold Instructor.__init__, Model.__init__. cbn [Model.lookup_pqc
      Model.lookup_n_params Z.eqb Pos.eqb rbind].
    rewrite Hd. cbn [rbind]. rewrite Hu. cbn [rbind]. eexists. reflexivity.
Qed.

(** *** The Fourier histogram *)

Lemma broadcast2_same_length {A : Type} (f : A -> A -> A) (a b : list A) :
  length a = length b ->
  broadcast2 f a b = Ok (map (fun p => f (fst p) (snd p)) (combine a b)).
Proof. intros H. unfold broadcast2. now rewrite H, Nat.eqb_refl. Qed.

Lemma magnitude_rows (re im : list R) :
  map sqrt
    (map (fun p => fst p + snd p)
       (combine (map (fun v => v ^ 2) re) (map (fun v => v ^ 2) im)))
  = map (fun p => sqrt (fst p ^ 2 + snd p ^ 2)) (combine re im).
Proof.
  revert im. induction re as [| a re IH]; intros [| b im]; cbn [map combine];
    try reflexivity.
  cbn [fst snd]. now rewrite IH.
Qed.

Lemma magnitude_nonneg (l : list (R * R)) :
  Forall (fun v => 0 <= v) (map (fun p => sqrt (fst p ^ 2 + snd p ^ 2)) l).
Proof.
  apply Forall_forall. intros v Hv. apply in_map_iff in Hv.
  destruct Hv as (p & <- & _). apply sqrt_pos.
Qed.

Lemma calc_hist_run (self : instructor_t) (w : weight_array R)
  (np : noise_params R) (cs : list complex) (lab : labels) (data : fourier_data)
  (re im : list R) :
  coefficients (fun x => rmap fst (forward x (Some w) np self)) 1
    (Instructor.max_freq self) = Ok cs ->
  _extract_data_and_labels [cs] = Ok (lab, data) ->
  real data = [re] -> imag data = [im] -> length re = length im ->
  calc_hist w np self
  = Ok ((length re,
         HistData [re] [im]
           [map (fun p => sqrt (fst p ^ 2 + snd p ^ 2)) (combine re im)]),
        self).
Proof.
  intros Hc He Hre Him Hlen. unfold Instructor.calc_hist.
  rewrite Hc. cbn [rbind]. rewrite He. cbn [rbind snd].
  rewrite Hre, Him. cbn [getitem nth_error rbind map].
  unfold broadcast2_rows. cbn [length Nat.eqb combine map sequence fst snd].
  rewrite broadcast2_same_length by now rewrite !length_map.
  cbn [rbind map]. now rewrite magnitude_rows.
Qed.

(** C6: for an instance constructed with [n_qubits] and [n_layers],
    [calc_hist] hands the Fourier routine the function
    [forward(., weights, noise)], one input, and the degree
    [max_freq = n_qubits * n_layers], and fails when the routine or the
    extraction fails; given that the routine returns one coefficient per
    frequency from [-max_freq] to [max_freq], what it returns is the bin
    count [2*max_freq + 1] (17 for 2 qubits and 4 layers) with the real and
    imaginary parts extracted from those coefficients and [comb], the row
    of their magnitudes [sqrt(real^2 + imag^2)], of that many entries, none
    negative. *)
Theorem calc_hist_bins (n_qubits n_layers seed : Z) (self : instructor_t)
  (w : weight_array R) (np : noise_params R) :
  coefficients_length coefficients ->
  extract_shape _extract_data_and_labels ->
  (1 <= n_qubits)%Z -> (1 <= n_layers)%Z ->
  Instructor.__init__ qml_device rng_random AdamOptimizer
    n_qubits n_layers seed = Ok self ->
  let analysed := fun x => rmap fst (forward x (Some w) np self) in
  Instructor.max_freq self = (n_qubits * n_layers)%Z /\
  (forall cs lab data,
     coefficients analysed 1 (n_qubits * n_layers)%Z = Ok cs ->
     _extract_data_and_labels [cs] = Ok (lab, data) ->
     exists re im,
       real data = [re] /\ imag data = [im] /\
       calc_hist w np self
       = Ok ((Z.to_nat (2 * (n_qubits * n_layers) + 1),
              HistData [re] [im]
                [map (fun p => sqrt (fst p ^ 2 + snd p ^ 2)) (combine re im)]),
             self)) /\
  (forall e,
     coefficients analysed 1 (n_qubits * n_layers)%Z = Raise e ->
     calc_hist w np self = Raise e) /\
  (forall cs e,
     coefficients analysed 1 (n_qubits * n_layers)%Z = Ok cs ->
     _extract_data_and_labels [cs] = Raise e ->
     calc_hist w np self = Raise e) /\
  (forall n out s',
     calc_hist w np self = Ok ((n, out), s') ->
     Z.of_nat n = (2 * (n_qubits * n_layers) + 1)%Z /\
     (n_qubits = 2%Z -> n_layers = 4%Z -> n = 17%nat) /\
     exists cs lab data re im comb,
       coefficients analysed 1 (n_qubits * n_layers)%Z = Ok cs /\
       _extract_data_and_labels [cs] = Ok (lab, data) /\
       real data = [re] /\ imag data = [im] /\
       h_real out = [re] /\ h_imag out = [im] /\ h_comb out = [comb] /\
       comb = map (fun p => sqrt (fst p ^ 2 + snd p ^ 2)) (combine re im) /\
       length comb = n /\
       Forall (fun v => 0 <= v) comb).
Proof.
  intros Hcoef Hext Hq Hl Hinit analysed.
  destruct (init_fields _ _ _ _ Hinit) as (_ & _ & _ & _ & Hmax & _).
  split; [exact Hmax |].
  assert (Hshape : forall cs lab data,
            coefficients analysed 1 (Instructor.max_freq self) = Ok cs ->
            _extract_data_and_labels [cs] = Ok (lab, data) ->
            exists re im,
              real data = [re] /\ imag data = [im] /\
              length re = Z.to_nat (2 * (n_qubits * n_layers) + 1) /\
              length im = Z.to_nat (2 * (n_qubits * n_layers) + 1)).
  { intros cs lab data Hc He.
    apply Hcoef in Hc as Hlen. rewrite Hmax in Hlen.
    destruct (Hext cs (Z.to_nat (n_qubits * n_layers)) lab data) as
      (re & im & Hre & Him & Hlre & Hlim); [nia | exact He |].
    exists re, im. repeat (split; [assumption |]). split; nia. }
  rewrite <- Hmax.
  split; [| split; [| split]].
  - intros cs lab data Hc He.
    destruct (Hshape cs lab data Hc He) as (re & im & Hre & Him & Hlre & Hlim).
    exists re, im. split; [exact Hre |]. split; [exact Him |].
    rewrite (calc_hist_run self w np cs lab data re im Hc He Hre Him)
      by congruence.
    rewrite Hmax, Hlre. reflexivity.
  - intros e Hc. unfold Instructor.calc_hist. fold analysed.
    now rewrite Hc.
  - intros cs e Hc He. unfold Instructor.calc_hist. fold analysed.
    rewrite Hc. cbn [rbind]. now rewrite He.
  - intros n out s' Hrun.
    destruct (coefficients analysed 1 (Instructor.max_freq self))
      as [cs | e] eqn:Hc;
      [| unfold Instructor.calc_hist in Hrun; fold analysed in Hrun;
         rewrite Hc in Hrun; discriminate Hrun].
    destruct (_extract_data_and_labels [cs]) as [[lab data] | e] eqn:He;
      [| unfold Instructor.calc_hist in Hrun; fold analysed in Hrun;
         rewrite Hc in Hrun; cbn [rbind] in Hrun; rewrite He in Hrun;
         discriminate Hrun].
    destruct (Hshape cs lab data eq_refl He)
      as (re & im & Hre & Him & Hlre & Hlim).
    rewrite (calc_hist_run self w np cs lab data re im Hc He Hre Him)
      in Hrun by congruence.
    injection Hrun as <- <- _.
    split; [rewrite Hmax, Hlre; nia |].
    split; [intros -> ->; rewrite Hlre; reflexivity |].
    exists cs, lab, data, re, im,
      (map (fun p => sqrt (fst p ^ 2 + snd p ^ 2)) (combine re im)).
    split; [first [exact Hc | reflexivity] |].
    split; [first [exact He | reflexivity] |].
    split; [exact Hre |]. split; [exact Him |].
    repeat (split; [reflexivity |]).
    split; [now rewrite length_map, length_combine, Hlim, Hlre, Nat.min_id |].
    apply magnitude_nonneg.
Qed.

End Engine.

Lemma toy_propagates : propagates Toy.step_and_cost.
Proof. intros st f w e H. unfold Toy.step_and_cost. now rewrite H. Qed.

Lemma toy_returns_objective : returns_objective Toy.step_and_cost.
Proof.
  intros st f w w' c st' H. unfold Toy.step_and_cost in H.
  destruct (f w) as [c0 | e]; [| discriminate H].
  cbn in H. now injection H as _ -> _.
Qed.

Lemma shape_assertion_witness :
  propagates Toy.step_and_cost /\
  Model.n_params Toy.model
  = (Model.n_layers Toy.model, Model.n_qubits Toy.model * 3 - 1)%Z /\
  map Z.of_nat [2; 2]%nat
  <> [Model.n_layers Toy.model; Model.n_qubits Toy.model * 3 - 1]%Z /\
  Instructor.step Toy.execute Toy.step_and_cost
    (PyList [[0; 0]; [0; 0]]) Toy.no_noise Toy.instructor
  = Raise AssertionError.
Proof.
  assert (Hne : map Z.of_nat [2; 2]%nat
                <> [Model.n_layers Toy.model; Model.n_qubits Toy.model * 3 - 1]%Z)
    by (cbn; discriminate).
  split; [exact toy_propagates |]. split; [reflexivity |]. split; [exact Hne |].
  destruct (shape_assertion unit nat Toy.execute Toy.step_and_cost
              Toy.instructor toy_propagates eq_refl) as [_ H].
  destruct (H [2; 2]%nat [[0; 0]; [0; 0]] Hne) as (_ & _ & Hstep).
  apply (Hstep (PyList [[0; 0]; [0; 0]]) Toy.no_noise 1%nat); reflexivity.
Defined.

(** C4 fails as stated: a nested list with one row too many does not have
    the required shape, and [forward] evaluates it without an error. *)
Lemma shape_assertion_counterexample :
  ~ has_shape (Model.n_layers Toy.model) (Model.n_qubits Toy.model)
      [[0; 0]; [0; 0]] /\
  Instructor.forward Toy.execute [0] (Some (PyList [[0; 0]; [0; 0]]))
    Toy.no_noise Toy.instructor
  = Ok ([0], Toy.instructor).
Proof.
  split.
  - intros [Hlen _]. cbn in Hlen. lia.
  - reflexivity.
Qed.

Lemma step_once_witness :
  returns_objective Toy.step_and_cost /\
  len (PyList (@nil (list R))) = Ok 0%nat /\
  np_array (Instructor.weights Toy.instructor)
  = Ok (NdArray [1; 2]%nat [[0; 0]]) /\
  exists c,
    Instructor.step Toy.execute Toy.step_and_cost (PyList []) Toy.no_noise
      Toy.instructor
    = Ok ((NdArray [1; 2]%nat [[0; 0]], c),
          Instructor.set_opt Toy.instructor 1%nat) /\
    Instructor.cost Toy.execute (NdArray [1; 2]%nat [[0; 0]])
      (Instructor.y_d Toy.instructor) Toy.no_noise Toy.instructor
    = Ok (c, Toy.instructor).
Proof.
  split; [exact toy_returns_objective |]. split; [reflexivity |].
  split; [reflexivity |].
  destruct (step_once unit nat Toy.execute Toy.step_and_cost Toy.instructor
              (PyList []) (NdArray [1; 2]%nat [[0; 0]]) Toy.no_noise 0%nat
              toy_returns_objective eq_refl eq_refl) as [Hstep Hpost].
  eexists. split.
  - rewrite Hstep. reflexivity.
  - eapply Hpost. rewrite Hstep. reflexivity.
Defined.

Lemma toy_first_encoding (xs : list R) (ops : list (operation R (list R))) :
  Forall (encodes xs) ops -> existsb is_RY ops = true ->
  Toy.first_encoding ops = Some xs /\
  forall i, Toy.first_encoding (map (at_point i) ops) = Some [nth i xs 0].
Proof.
  induction ops as [| o ops IH]; intros Henc Hex; [discriminate Hex |].
  inversion Henc as [| ? ? Ho Hops]; subst.
  destruct o; cbn in Ho, Hex |- *; try (now apply IH).
  subst. now split.
Qed.

Lemma toy_broadcasts : broadcasts Toy.execute.
Proof.
  intros dev ops wire xs ys Henc Hex H. unfold Toy.execute in *.
  destruct (toy_first_encoding xs ops Henc Hex) as [Hfirst Hpt].
  rewrite Hfirst in H. injection H as <-.
  split; [reflexivity |]. intros i _. now rewrite Hpt.
Qed.

Lemma forward_pure_witness :
  broadcasts Toy.execute /\
  (1 <= Model.n_qubits (Instructor.model Toy.instructor))%Z /\
  (1 <= Model.n_layers (Instructor.model Toy.instructor))%Z /\
  Model.state_vector (Instructor.model Toy.instructor) = false /\
  Instructor.forward Toy.execute [3; 5] None Toy.no_noise Toy.instructor
  = Ok ([3; 5], Toy.instructor) /\
  (1 < length [3; 5])%nat /\
  Instructor.forward Toy.execute [5] None Toy.no_noise Toy.instructor
  = Ok ([5], Toy.instructor).
Proof.
  assert (Hrun : Instructor.forward Toy.execute [3; 5] None Toy.no_noise
                   Toy.instructor = Ok ([3; 5], Toy.instructor))
    by reflexivity.
  split; [exact toy_broadcasts |]. split; [cbn; lia |]. split; [cbn; lia |].
  split; [reflexivity |]. split; [exact Hrun |]. split; [cbn; lia |].
  destruct (forward_pure unit nat unit Toy.execute Toy.step_and_cost
              Toy.coefficients Toy._extract_data_and_labels
              Toy.instructor [3; 5] None Toy.no_noise toy_broadcasts)
    as (_ & _ & Hpoints).
  assert (Hq : (1 <= Model.n_qubits (Instructor.model Toy.instructor))%Z)
    by (cbn; lia).
  assert (Hl : (1 <= Model.n_layers (Instructor.model Toy.instructor))%Z)
    by (cbn; lia).
  destruct (Hpoints Hq Hl eq_refl [3; 5] Toy.instructor Hrun) as [_ Hpt].
  assert (H1 : (1 < length [3; 5])%nat) by (cbn; lia).
  exact (Hpt 1%nat H1).
Defined.

Lemma toy_coefficients_length : coefficients_length Toy.coefficients.
Proof.
  intros f degree cs. unfold Toy.coefficients.
  destruct (Z.ltb_spec degree 0) as [Hneg | Hpos]; [discriminate |].
  intros [= <-]. rewrite repeat_length. destruct degree; lia.
Qed.

Lemma toy_extract_shape : extract_shape Toy._extract_data_and_labels.
Proof.
  intros cs d lab data _. unfold Toy._extract_data_and_labels.
  intros [= _ <-]. exists (map fst cs), (map snd cs). cbn.
  now rewrite !length_map.
Qed.

Lemma sequence_length {A : Type} (l : list (result A)) (r : list A) :
  sequence l = Ok r -> length r = length l.
Proof.
  revert r. induction l as [| m l IH]; intros r; cbn [sequence].
  - now intros [= <-].
  - destruct m as [a |]; [| discriminate]. cbn [rbind].
    destruct (sequence l) as [r' |]; [| discriminate]. cbn [rbind].
    intros [= <-]. cbn [length]. now rewrite (IH r').
Qed.

Lemma demo_coefficients_length : coefficients_length Demo.coefficients.
Proof.
  intros f degree cs. unfold Demo.coefficients.
  destruct (Z.ltb_spec degree 0) as [Hneg | Hpos]; [discriminate |].
  destruct (sequence _) as [samples |] eqn:Hs; [| discriminate].
  cbn [rbind]. intros [= <-]. apply sequence_length in Hs.
  rewrite length_map, Hs, length_map. unfold np_arange.
  rewrite length_map, length_seq. lia.
Qed.

Lemma calc_hist_bins_witness :
  coefficients_length Demo.coefficients /\
  extract_shape Toy._extract_data_and_labels /\
  (1 <= 2)%Z /\ (1 <= 4)%Z /\
  Instructor.__init__ Toy.qml_device Toy.rng_random Toy.AdamOptimizer 2 4 100
  = Ok Toy.fresh /\
  (exists re im,
     Instructor.calc_hist Toy.execute Demo.coefficients
       Toy._extract_data_and_labels (Instructor.weights Toy.fresh)
       Toy.no_noise Toy.fresh
     = Ok ((17%nat,
            HistData [re] [im]
              [map (fun p => sqrt (fst p ^ 2 + snd p ^ 2)) (combine re im)]),
           Toy.fresh)) /\
  Instructor.calc_hist Toy.execute Demo.coefficients
    Toy._extract_data_and_labels (PyList []) Toy.no_noise Toy.fresh
  = Raise IndexError.
Proof.
  assert (Hinit : Instructor.__init__ Toy.qml_device Toy.rng_random
                    Toy.AdamOptimizer 2 4 100 = Ok Toy.fresh) by reflexivity.
  split; [exact demo_coefficients_length |].
  split; [exact toy_extract_shape |].
  assert (Hq : (1 <= 2)%Z) by lia.
  assert (Hl : (1 <= 4)%Z) by lia.
  split; [exact Hq |]. split; [exact Hl |]. split; [exact Hinit |].
  split.
  - destruct (calc_hist_bins unit nat unit Toy.qml_device Toy.execute
                Toy.rng_random Toy.AdamOptimizer Demo.coefficients
                Toy._extract_data_and_labels 2 4 100 Toy.fresh
                (Instructor.weights Toy.fresh) Toy.no_noise
                demo_coefficients_length toy_extract_shape Hq Hl Hinit)
      as (_ & Hrun & _).
    destruct (Hrun _ _ _ eq_refl eq_refl) as (re & im & _ & _ & Hcalc).
    exists re, im. exact Hcalc.
  - destruct (calc_hist_bins unit nat unit Toy.qml_device Toy.execute
                Toy.rng_random Toy.AdamOptimizer Demo.coefficients
                Toy._extract_data_and_labels 2 4 100 Toy.fresh
                (PyList []) Toy.no_noise
                demo_coefficients_length toy_extract_shape Hq Hl Hinit)
      as (_ & _ & Hfail & _).
    apply Hfail. reflexivity.
Defined.

(** ** The training tick and the cap on the log *)

Section Tick.

Variables device optstate : Type.
Variable qml_device : Z -> result device.
Variable execute :
  device -> list (operation R (list R)) -> measurement -> result (list R).
Variable rng_random : Z -> Z -> Z -> result (list (list R)).
Variable AdamOptimizer : R -> optstate.
Variable step_and_cost :
  optstate -> (weight_array R -> result R) -> weight_array R ->
  result (weight_array R * R * optstate).

Local Abbreviation tick :=
  (training qml_device execute rng_random AdamOptimizer step_and_cost).
Local Abbreviation init :=
  (Instructor.__init__ qml_device rng_random AdamOptimizer).
Local Abbreviation step := (Instructor.step execute step_and_cost).

Lemma training_run (page_log : option page_log_t) (page_data : noise_params R)
  (main_data : main_data_t) (out : page_log_t) :
  tick page_log page_data main_data = Ok out <->
  exists ins w c ins',
    init (niq main_data) (nil_ main_data) (seed main_data) = Ok ins /\
    step (log_weights (cap_reset (or_default page_log))) page_data ins
    = Ok ((w, c), ins') /\
    out = PageLog (loss (cap_reset (or_default page_log)) ++ [c]) w.
Proof.
  unfold training. cbv zeta. split.
  - destruct (init _ _ _) as [ins | e]; [| discriminate]. cbn [rbind].
    destruct (step _ _ ins) as [[[w c] ins'] | e] eqn:Hstep; [| discriminate].
    cbn [rbind fst snd]. intros [= <-].
    exists ins, w, c, ins'. now rewrite Hstep.
  - intros (ins & w & c & ins' & -> & Hstep & ->). cbn [rbind].
    now rewrite Hstep.
Qed.

(** C5: a tick empties both the loss sequence and the weights before the
    step exactly when the stored loss sequence is longer than 30: with 30
    entries or fewer the log is kept and the new loss is appended to it;
    with more (31, say) the tick is the one of an empty log, its result
    holding the new loss alone. *)
Theorem training_cap (log : page_log_t) (page_data : noise_params R)
  (main_data : main_data_t) :
  ((30 < length (loss log))%nat ->
   cap_reset log = PageLog [] (PyList []) /\
   tick (Some log) page_data main_data = tick None page_data main_data) /\
  ((length (loss log) <= 30)%nat -> cap_reset log = log) /\
  (forall out,
     tick (Some log) page_data main_data = Ok out <->
     exists ins w c ins',
       init (niq main_data) (nil_ main_data) (seed main_data) = Ok ins /\
       step (if (30 <? length (loss log))%nat then PyList []
             else log_weights log) page_data ins
       = Ok ((w, c), ins') /\
       out = PageLog ((if (30 <? length (loss log))%nat then []
                       else loss log) ++ [c]) w) /\
  (length (loss log) = 31%nat ->
   forall out,
     tick (Some log) page_data main_data = Ok out ->
     exists c, loss out = [c]) /\
  (length (loss log) = 30%nat ->
   forall out,
     tick (Some log) page_data main_data = Ok out ->
     exists c, loss out = loss log ++ [c]).
Proof.
  assert (Hreset : (30 < length (loss log))%nat ->
                   cap_reset log = PageLog [] (PyList [])).
  { intros H. unfold cap_reset.
    destruct (Nat.ltb_spec 30 (length (loss log))); [reflexivity | lia]. }
  assert (Hkeep : (length (loss log) <= 30)%nat -> cap_reset log = log).
  { intros H. unfold cap_reset.
    destruct (Nat.ltb_spec 30 (length (loss log))); [lia | reflexivity]. }
  assert (Hrun : forall out,
            tick (Some log) page_data main_data = Ok out <->
            exists ins w c ins',
              init (niq main_data) (nil_ main_data) (seed main_data) = Ok ins /\
              step (if (30 <? length (loss log))%nat then PyList []
                    else log_weights log) page_data ins
              = Ok ((w, c), ins') /\
              out = PageLog ((if (30 <? length (loss log))%nat then []
                              else loss log) ++ [c]) w).
  { intros out. rewrite training_run. cbn [or_default]. unfold cap_reset.
    now destruct (30 <? length (loss log))%nat. }
  split; [| split; [exact Hkeep | split; [exact Hrun | split]]].
  - intros H. split; [now apply Hreset |].
    unfold training. cbn [or_default]. rewrite (Hreset H). reflexivity.
  - intros H out Hout. apply Hrun in Hout.
    destruct Hout as (ins & w & c & ins' & _ & _ & ->).
    exists c. rewrite H. reflexivity.
  - intros H out Hout. apply Hrun in Hout.
    destruct Hout as (ins & w & c & ins' & _ & _ & ->).
    exists c. rewrite H. reflexivity.
Qed.

End Tick.

Lemma training_cap_witness :
  (30 < length (loss Toy.log31))%nat /\
  training Toy.qml_device Toy.execute Toy.rng_random Toy.AdamOptimizer
    Toy.step_and_cost (Some Toy.log31) Toy.no_noise Toy.session
  = training Toy.qml_device Toy.execute Toy.rng_random Toy.AdamOptimizer
      Toy.step_and_cost None Toy.no_noise Toy.session /\
  (length (loss Toy.log30) <= 30)%nat /\
  cap_reset Toy.log30 = Toy.log30.
Proof.
  assert (H31 : (30 < length (loss Toy.log31))%nat) by (cbn; lia).
  assert (H30 : (length (loss Toy.log30) <= 30)%nat) by (cbn; lia).
  split; [exact H31 |].
  destruct (training_cap unit nat Toy.qml_device Toy.execute Toy.rng_random
              Toy.AdamOptimizer Toy.step_and_cost Toy.log31 Toy.no_noise
              Toy.session) as (Hcap & _).
  split; [exact (proj2 (Hcap H31)) |].
  split; [exact H30 |].
  destruct (training_cap unit nat Toy.qml_device Toy.execute Toy.rng_random
              Toy.AdamOptimizer Toy.step_and_cost Toy.log30 Toy.no_noise
              Toy.session) as (_ & Hkeep & _).
  exact (Hkeep H30).
Defined.

(** * Further properties of the circuit *)

(** ** Rows longer or shorter than the ansatz needs *)

Section Rows.

Variables scalar input device : Type.

Local Abbreviation op := (operation scalar input).
Local Abbreviation model_t := (Model.t device).

Lemma getitem_ok {A : Type} (row : list A) (i : nat) (a : A) :
  getitem row i = Ok a -> (i < length row)%nat.
Proof.
  unfold getitem. destruct (nth_error row i) eqn:E; [| discriminate].
  intros _. apply nth_error_Some. congruence.
Qed.

Lemma rotations_loop_inv (w : list scalar) (qs : list Z) :
  forall (k : nat) (tape : list op) r,
    for_each qs
      (fun q w_idx =>
         a <~ lift (getitem w w_idx) ;;
         Model.queue (RX a q) ;;;
         let w_idx := S w_idx in
         b <~ lift (getitem w w_idx) ;;
         Model.queue (RZ b q) ;;;
         let w_idx := S w_idx in
         sret w_idx) k tape = Ok r ->
    qs <> [] -> (k + 2 * length qs <= length w)%nat.
Proof.
  induction qs as [| q qs IH]; intros k tape r Hrun Hne; [congruence |].
  cbn [for_each length] in *.
  unfold sbind at 1 in Hrun. unfold sbind at 1 in Hrun.
  unfold lift at 1 in Hrun.
  destruct (getitem w k) as [a |] eqn:Ha; [| discriminate].
  unfold sbind at 1 in Hrun. unfold Model.queue at 1 in Hrun.
  unfold sbind at 1 in Hrun. unfold lift at 1 in Hrun.
  destruct (getitem w (S k)) as [b |] eqn:Hb; [| discriminate].
  unfold sbind at 1 in Hrun. unfold Model.queue at 1 in Hrun.
  unfold sret at 1 in Hrun.
  apply getitem_ok in Hb.
  destruct qs as [| q' qs']; [cbn; lia |].
  apply IH in Hrun; [| discriminate]. cbn [length] in *. lia.
Qed.

Lemma controlled_loop_inv (n : Z) (w : list scalar) (qs : list Z) :
  forall (k : nat) (tape : list op) r,
    Forall (fun q => (0 < q)%Z) qs ->
    for_each qs
      (fun q w_idx =>
         if (q >? 0)%Z then
           c <~ lift (getitem w w_idx) ;;
           Model.queue (CRX c q ((q + 1) mod n)%Z) ;;;
           sret (S w_idx)
         else sret w_idx) k tape = Ok r ->
    qs <> [] -> (k + length qs <= length w)%nat.
Proof.
  induction qs as [| q qs IH]; intros k tape r Hpos Hrun Hne; [congruence |].
  inversion Hpos as [| ? ? Hq Hqs]; subst.
  cbn [for_each length] in *.
  unfold sbind at 1 in Hrun.
  destruct (Z.gtb_spec q 0) as [_ | Hle]; [| lia].
  unfold sbind at 1 in Hrun. unfold lift at 1 in Hrun.
  destruct (getitem w k) as [c |] eqn:Hc; [| discriminate].
  unfold sbind at 1 in Hrun. unfold Model.queue at 1 in Hrun.
  unfold sret at 1 in Hrun.
  apply getitem_ok in Hc.
  destruct qs as [| q' qs']; [cbn; lia |].
  apply IH in Hrun; [| assumption | discriminate]. cbn [length] in *. lia.
Qed.

(** The ansatz layer on a row with entries to spare. *)
Lemma pqc19_queues_prefix (self : model_t) (w : list scalar) (tape : list op) :
  (1 <= Model.n_qubits self)%Z ->
  (Model.n_qubits self * 3 - 1 <= Z.of_nat (length w))%Z ->
  Model._pqc19 (input := input) self w tape
  = Ok (tt, tape ++ pqc19_layout input (Model.n_qubits self) w).
Proof.
  intros Hn Hlen. unfold Model._pqc19.
  set (n := Model.n_qubits self) in *.
  unfold sbind at 1.
  rewrite rotations_loop by (rewrite range_length; lia).
  rewrite range_length. cbn [Nat.add].
  unfold sbind at 1.
  rewrite (range_cons n Hn) at 1. cbn [for_each].
  unfold sbind at 1. cbn [Z.gtb Z.compare]. unfold sret at 1.
  rewrite controlled_loop;
    [| apply seq_positive | rewrite length_map, length_seq; lia].
  unfold sret, pqc19_layout. cbn [skipn].
  replace (tl (range n)) with (map Z.of_nat (seq 1 (Z.to_nat n - 1)))
    by now rewrite (range_cons n Hn).
  now rewrite <- app_assoc.
Qed.

Lemma pqc19_ok_length (self : model_t) (w : list scalar) (tape : list op) r :
  (1 <= Model.n_qubits self)%Z ->
  Model._pqc19 (input := input) self w tape = Ok r ->
  (Model.n_qubits self * 3 - 1 <= Z.of_nat (length w))%Z.
Proof.
  intros Hn. unfold Model._pqc19.
  set (n := Model.n_qubits self) in *.
  unfold sbind at 1.
  destruct (for_each (range n) _ 0%nat tape) as [[k t1] |] eqn:E1;
    [| discriminate].
  assert (H2n : (2 * Z.to_nat n <= length w)%nat).
  { apply rotations_loop_inv in E1.
    - rewrite range_length in E1. lia.
    - rewrite (range_cons n Hn). discriminate. }
  rewrite rotations_loop in E1 by (rewrite range_length; lia).
  injection E1 as <- <-. rewrite range_length. cbn [Nat.add].
  unfold sbind at 1.
  rewrite (range_cons n Hn) at 1. cbn [for_each].
  unfold sbind at 1. cbn [Z.gtb Z.compare]. unfold sret at 1.
  destruct (for_each (map Z.of_nat (seq 1 (Z.to_nat n - 1))) _ _ _)
    as [[k2 t2] |] eqn:E2; [| discriminate].
  intros _.
  destruct (Z.to_nat n - 1)%nat as [| m] eqn:Hm; [lia |].
  apply controlled_loop_inv in E2.
  - rewrite length_map, length_seq in E2. lia.
  - apply seq_positive.
  - discriminate.
Qed.

Lemma pqc19_layout_length (n : Z) (w : list scalar) :
  (1 <= n)%Z -> (n * 3 - 1 <= Z.of_nat (length w))%Z ->
  length (pqc19_layout input n w) = Z.to_nat (n * 3 - 1).
Proof.
  intros Hn Hlen. unfold pqc19_layout.
  rewrite length_app, rotation_pairs_length by (rewrite range_length; lia).
  rewrite controlled_ring_length;
    rewrite (range_cons n Hn); cbn [tl]; rewrite length_map, length_seq.
  - cbn [length]. rewrite length_map, length_seq. lia.
  - rewrite length_skipn. lia.
Qed.

Lemma rotation_pairs_firstn (qs : list Z) :
  forall (w : list scalar) (m : nat),
    (2 * length qs <= m)%nat ->
    rotation_pairs input qs (firstn m w) = rotation_pairs input qs w.
Proof.
  induction qs as [| q qs IH]; intros w m Hm; [reflexivity |].
  cbn [length] in Hm.
  destruct m as [| [| m]]; try lia.
  destruct w as [| a [| b w]]; try reflexivity.
  cbn [firstn rotation_pairs]. rewrite IH by lia. reflexivity.
Qed.

Lemma combine_firstn_r {A B : Type} (l : list A) :
  forall (l' : list B) (m : nat),
    (length l <= m)%nat -> combine l (firstn m l') = combine l l'.
Proof.
  induction l as [| a l IH]; intros l' m Hm; [reflexivity |].
  cbn [length] in Hm. destruct m as [| m]; [lia |].
  destruct l' as [| b l']; [reflexivity |].
  cbn [firstn combine]. rewrite IH by lia. reflexivity.
Qed.

Lemma pqc19_layout_firstn (n : Z) (w : list scalar) :
  (1 <= n)%Z ->
  pqc19_layout input n (firstn (Z.to_nat (n * 3 - 1)) w)
  = pqc19_layout input n w.
Proof.
  intros Hn. unfold pqc19_layout, controlled_ring.
  rewrite rotation_pairs_firstn by (rewrite range_length; lia).
  rewrite skipn_firstn_comm, combine_firstn_r; [reflexivity |].
  rewrite (range_cons n Hn). cbn [tl]. rewrite length_map, length_seq. lia.
Qed.

(** X2: with at least one qubit, the ansatz layer goes through exactly when
    the weight row has at least [n_qubits*3 - 1] entries: it then queues
    that many operations, the ones the first [n_qubits*3 - 1] entries give,
    and leaves the further entries unread; on a shorter row it raises the
    index error. *)
Theorem pqc19_row_length (self : model_t) (w : list scalar) (tape : list op) :
  (1 <= Model.n_qubits self)%Z ->
  ((Model.n_qubits self * 3 - 1 <= Z.of_nat (length w))%Z ->
   Model._pqc19 (input := input) self w tape
   = Ok (tt, tape ++ pqc19_layout input (Model.n_qubits self)
                       (firstn (Z.to_nat (Model.n_qubits self * 3 - 1)) w)) /\
   length (pqc19_layout input (Model.n_qubits self)
             (firstn (Z.to_nat (Model.n_qubits self * 3 - 1)) w))
   = Z.to_nat (Model.n_qubits self * 3 - 1)) /\
  ((Z.of_nat (length w) < Model.n_qubits self * 3 - 1)%Z ->
   Model._pqc19 (input := input) self w tape = Raise IndexError).
Proof.
  intros Hn. split.
  - intros Hlen. rewrite pqc19_layout_firstn by assumption.
    split; [now apply pqc19_queues_prefix | now apply pqc19_layout_length].
  - intros Hshort.
    destruct (Model._pqc19 (input := input) self w tape) as [r | e] eqn:E.
    + apply pqc19_ok_length in E; [lia | assumption].
    + f_equal. eapply pqc19_only_index. exact E.
Qed.

End Rows.

Lemma pqc19_row_length_witness :
  (1 <= Model.n_qubits Toy.two_qubits)%Z /\
  (Model.n_qubits Toy.two_qubits * 3 - 1
   <= Z.of_nat (length [10; 11; 12; 13; 14; 99]%Z))%Z /\
  Model._pqc19 (input := Z) Toy.two_qubits [10; 11; 12; 13; 14; 99]%Z []
  = Ok (tt, [RX 10 0; RZ 11 0; RX 12 1; RZ 13 1; CRX 14 1 0]%Z) /\
  (Z.of_nat (length [10; 11; 12; 13]%Z)
   < Model.n_qubits Toy.two_qubits * 3 - 1)%Z /\
  Model._pqc19 (input := Z) Toy.two_qubits [10; 11; 12; 13]%Z []
  = Raise IndexError.
Proof.
  assert (Hn : (1 <= Model.n_qubits Toy.two_qubits)%Z) by (cbn; lia).
  assert (Hlong : (Model.n_qubits Toy.two_qubits * 3 - 1
                   <= Z.of_nat (length [10; 11; 12; 13; 14; 99]%Z))%Z)
    by (cbn; lia).
  assert (Hshort : (Z.of_nat (length [10; 11; 12; 13]%Z)
                    < Model.n_qubits Toy.two_qubits * 3 - 1)%Z) by (cbn; lia).
  split; [exact Hn |]. split; [exact Hlong |].
  split.
  - destruct (pqc19_row_length Z Z unit Toy.two_qubits
                [10; 11; 12; 13; 14; 99]%Z [] Hn) as [Hok _].
    destruct (Hok Hlong) as [Hrun _]. rewrite Hrun. reflexivity.
  - split; [exact Hshort |].
    destruct (pqc19_row_length Z Z unit Toy.two_qubits
                [10; 11; 12; 13]%Z [] Hn) as [_ Hfail].
    exact (Hfail Hshort).
Defined.

(** ** Weight arguments with rows to spare, or too few *)

Section Layers.

Variables scalar input device : Type.

Local Abbreviation op := (operation scalar input).
Local Abbreviation model_t := (Model.t device).

Lemma layer_queues_prefix (self : model_t) (x : input)
  (np : noise_params scalar) (w_l : list scalar) (tape : list op) :
  (1 <= Model.n_qubits self)%Z ->
  (Model.n_qubits self * 3 - 1 <= Z.of_nat (length w_l))%Z ->
  (Model.run_pqc self w_l ;;;
   _ <~ for_each (range (Model.n_qubits self))
          (fun q _ => Model.apply_noise np q) tt ;;
   sret tt) (tape ++ map (RY x) (range (Model.n_qubits self)))
  = Ok (tt, tape ++ layer_layout (Model.n_qubits self) x np w_l).
Proof.
  intros Hn Hlen. unfold Model.run_pqc.
  destruct (Model.pqc self).
  unfold sbind at 1. rewrite pqc19_queues_prefix by assumption.
  unfold sbind at 1.
  rewrite (queue_loop scalar input (noise_layout input np))
    by (intros; apply apply_noise_queues).
  unfold sret, layer_layout. now rewrite <- !app_assoc.
Qed.

Lemma layers_loop_prefix (self : model_t) (x : input)
  (np : noise_params scalar) (rows : list (list scalar)) :
  (1 <= Model.n_qubits self)%Z ->
  forall (m s : nat) (tape : list op),
    (s + m <= length rows)%nat ->
    Forall (fun r => (Model.n_qubits self * 3 - 1 <= Z.of_nat (length r))%Z)
      (firstn m (skipn s rows)) ->
    for_each (map Z.of_nat (seq s m))
      (fun l _ =>
         Model.iec self x ;;;
         w_l <~ lift (getitem rows (Z.to_nat l)) ;;
         Model.run_pqc self w_l ;;;
         _ <~ for_each (range (Model.n_qubits self))
                (fun q _ => Model.apply_noise np q) tt ;;
         sret tt) tt tape
    = Ok (tt, tape ++ circuit_layout (Model.n_qubits self) x np
                        (firstn m (skipn s rows))).
Proof.
  intros Hn. induction m as [| m IH]; intros s tape Hs Hrows.
  - cbn. unfold sret. now rewrite app_nil_r.
  - cbn [seq map for_each].
    destruct (getitem_skipn rows s) as (w_l & Hget & Hnth & Hskip); [lia |].
    rewrite Hskip in Hrows. cbn [firstn] in Hrows.
    inversion Hrows as [| ? ? Hw Hrest]; subst.
    unfold sbind at 1. unfold sbind at 1. rewrite iec_queues.
    unfold sbind at 1. unfold lift at 1. rewrite Nat2Z.id, Hget.
    rewrite layer_queues_prefix by assumption.
    rewrite IH by (assumption || lia). rewrite Hskip. cbn [firstn].
    unfold circuit_layout. cbn [flat_map]. now rewrite <- app_assoc.
Qed.

Lemma layers_loop_inv (self : model_t) (x : input)
  (np : noise_params scalar) (rows : list (list scalar)) :
  (1 <= Model.n_qubits self)%Z ->
  forall (m s : nat) (tape : list op) r,
    for_each (map Z.of_nat (seq s m))
      (fun l _ =>
         Model.iec self x ;;;
         w_l <~ lift (getitem rows (Z.to_nat l)) ;;
         Model.run_pqc self w_l ;;;
         _ <~ for_each (range (Model.n_qubits self))
                (fun q _ => Model.apply_noise np q) tt ;;
         sret tt) tt tape = Ok r ->
    (m = 0%nat \/ s + m <= length rows)%nat /\
    Forall (fun r => (Model.n_qubits self * 3 - 1 <= Z.of_nat (length r))%Z)
      (firstn m (skipn s rows)).
Proof.
  intros Hn. induction m as [| m IH]; intros s tape r Hrun.
  - split; [now left | constructor].
  - cbn [seq map for_each] in Hrun.
    unfold sbind at 1 in Hrun. unfold sbind at 1 in Hrun.
    rewrite iec_queues in Hrun.
    unfold sbind at 1 in Hrun. unfold lift at 1 in Hrun.
    rewrite Nat2Z.id in Hrun.
    destruct (getitem rows s) as [w_l |] eqn:Hget; [| discriminate].
    apply getitem_ok in Hget as Hs.
    destruct (getitem_skipn rows s Hs) as (w_l' & Hget' & _ & Hskip).
    assert (w_l' = w_l) by congruence. subst w_l'.
    unfold sbind at 1 in Hrun.
    destruct (Model.run_pqc self w_l _) as [[[] t1] |] eqn:Hpqc;
      [| discriminate].
    unfold Model.run_pqc in Hpqc. destruct (Model.pqc self).
    apply pqc19_ok_length in Hpqc; [| assumption].
    unfold sbind at 1 in Hrun.
    rewrite (queue_loop scalar input (noise_layout input np)) in Hrun
      by (intros; apply apply_noise_queues).
    unfold sret at 1 in Hrun.
    apply IH in Hrun. destruct Hrun as [Hm Hrest].
    split; [right; lia |].
    rewrite Hskip. cbn [firstn]. now constructor.
Qed.

(** Any weight argument that passes the assertion and has the rows and
    entries the loops read. *)
Lemma circuit_runs (self : model_t) (w : weight_array scalar) (x : input)
  (np : noise_params scalar) (tape : list op) :
  (1 <= Model.n_qubits self)%Z ->
  Model.shape_ok self w = true ->
  (Z.to_nat (Model.n_layers self) <= length (rows_of w))%nat ->
  Forall (fun r => (Model.n_qubits self * 3 - 1 <= Z.of_nat (length r))%Z)
    (firstn (Z.to_nat (Model.n_layers self)) (rows_of w)) ->
  Model._circuit self w x np tape
  = Ok (if Model.state_vector self then StateMP else ExpvalPauliZ 0,
        tape ++ circuit_layout (Model.n_qubits self) x np
                  (firstn (Z.to_nat (Model.n_layers self)) (rows_of w))).
Proof.
  intros Hn Hok Hlen Hrows. unfold Model._circuit. rewrite Hok.
  unfold sbind at 1. unfold range at 1.
  rewrite (layers_loop_prefix self x np (rows_of w) Hn) by assumption.
  cbn [skipn]. now destruct (Model.state_vector self).
Qed.

(** X3: a nested Python list is never refused for its shape.  With at least
    one qubit the circuit function goes through on it exactly when it has
    at least [n_layers] rows and each of the first [n_layers] rows has at
    least [n_qubits*3 - 1] entries; further rows and entries are not read.
    In every other case it raises the index error. *)
Theorem circuit_on_list (self : model_t) (rows : list (list scalar))
  (x : input) (np : noise_params scalar) :
  (1 <= Model.n_qubits self)%Z ->
  let n_layers := Z.to_nat (Model.n_layers self) in
  let enough :=
    (n_layers <= length rows)%nat /\
    Forall (fun r => (Model.n_qubits self * 3 - 1 <= Z.of_nat (length r))%Z)
      (firstn n_layers rows) in
  (enough ->
   Model._circuit self (PyList rows) x np []
   = Ok (if Model.state_vector self then StateMP else ExpvalPauliZ 0,
         circuit_layout (Model.n_qubits self) x np (firstn n_layers rows))) /\
  (~ enough -> Model._circuit self (PyList rows) x np [] = Raise IndexError).
Proof.
  intros Hn n_layers enough. split.
  - intros [Hlen Hrows].
    now rewrite (circuit_runs self (PyList rows) x np [] Hn eq_refl Hlen Hrows).
  - intros Hnot.
    destruct (Model._circuit self (PyList rows) x np []) as [r | e] eqn:E.
    + exfalso. apply Hnot. unfold Model._circuit in E. cbn [Model.shape_ok] in E.
      unfold sbind at 1 in E. unfold range at 1 in E.
      destruct (for_each _ _ tt []) as [r1 |] eqn:E1; [| discriminate].
      apply (layers_loop_inv self x np rows Hn) in E1.
      cbn [skipn rows_of] in E1. destruct E1 as [Hlen Hrows].
      split; [| exact Hrows]. fold n_layers in Hlen. lia.
    + f_equal. unfold Model._circuit in E. cbn [Model.shape_ok] in E.
      eapply layers_only_index. exact E.
Qed.

Lemma layer_layout_length (n : Z) (x : input) (np : noise_params scalar)
  (w_l : list scalar) :
  (1 <= n)%Z -> (n * 3 - 1 <= Z.of_nat (length w_l))%Z ->
  length (layer_layout n x np w_l) = Z.to_nat (9 * n - 1).
Proof.
  intros Hn Hlen. unfold layer_layout.
  rewrite !length_app, length_map, range_length, pqc19_layout_length
    by assumption.
  assert (H5 : forall qs : list Z,
             length (flat_map (noise_layout input np) qs) = (5 * length qs)%nat).
  { induction qs as [| q qs IH]; [reflexivity |].
    cbn [flat_map noise_layout app length]. rewrite IH. lia. }
  rewrite H5, range_length. lia.
Qed.

Lemma circuit_layout_length (n : Z) (x : input) (np : noise_params scalar)
  (rows : list (list scalar)) :
  (1 <= n)%Z ->
  Forall (fun r => (n * 3 - 1 <= Z.of_nat (length r))%Z) rows ->
  Z.of_nat (length (circuit_layout n x np rows))
  = (Z.of_nat (length rows) * (9 * n - 1))%Z.
Proof.
  intros Hn Hrows. unfold circuit_layout.
  induction rows as [| r rows IH]; [reflexivity |].
  inversion Hrows as [| ? ? Hr Hrest]; subst.
  cbn [flat_map]. rewrite length_app, layer_layout_length by assumption.
  cbn [length]. specialize (IH Hrest). nia.
Qed.

(** X4: on weights of the required shape the recorded circuit has
    [n_layers * (9*n_qubits - 1)] operations: per layer an encoding gate on
    each qubit, the [3*n_qubits - 1] gates of the ansatz, and five channels
    on each qubit. *)
Theorem circuit_size (self : model_t) (w : weight_array scalar) (x : input)
  (np : noise_params scalar) (meas : measurement) (tape : list op) :
  (1 <= Model.n_qubits self)%Z ->
  Model.shape_ok self w = true ->
  has_shape (Model.n_layers self) (Model.n_qubits self) (rows_of w) ->
  Model._circuit self w x np [] = Ok (meas, tape) ->
  Z.of_nat (length tape)
  = (Model.n_layers self * (9 * Model.n_qubits self - 1))%Z.
Proof.
  intros Hn Hok [Hlen Hrows] Hrun.
  rewrite circuit_runs in Hrun; [| assumption | assumption | lia |].
  - injection Hrun as _ <-. cbn [app].
    replace (Z.to_nat (Model.n_layers self)) with (length (rows_of w)) by lia.
    rewrite firstn_all, <- Hlen. apply circuit_layout_length; [assumption |].
    apply Forall_forall. intros r Hr. rewrite Forall_forall in Hrows.
    specialize (Hrows r Hr). lia.
  - replace (Z.to_nat (Model.n_layers self)) with (length (rows_of w)) by lia.
    rewrite firstn_all. apply Forall_forall. intros r Hr.
    rewrite Forall_forall in Hrows. specialize (Hrows r Hr). lia.
Qed.

End Layers.

Lemma circuit_on_list_witness :
  (1 <= Model.n_qubits Toy.model)%Z /\
  ((Z.to_nat (Model.n_layers Toy.model) <= length [[3; 4; 9]; [5; 6]]%Z)%nat /\
   Forall (fun r => (Model.n_qubits Toy.model * 3 - 1 <= Z.of_nat (length r))%Z)
     (firstn (Z.to_nat (Model.n_layers Toy.model)) [[3; 4; 9]; [5; 6]]%Z)) /\
  Model._circuit Toy.model (PyList [[3; 4; 9]; [5; 6]]%Z) 7%Z
    (Noise 0 0 0 0 0)%Z []
  = Ok (ExpvalPauliZ 0,
        [RY 7 0; RX 3 0; RZ 4 0;
         BitFlip 0 0; PhaseFlip 0 0; AmplitudeDamping 0 0; PhaseDamping 0 0;
         DepolarizingChannel 0 0]%Z).
Proof.
  assert (Hn : (1 <= Model.n_qubits Toy.model)%Z) by (cbn; lia).
  assert (Henough :
            (Z.to_nat (Model.n_layers Toy.model)
             <= length [[3; 4; 9]; [5; 6]]%Z)%nat /\
            Forall (fun r => (Model.n_qubits Toy.model * 3 - 1
                              <= Z.of_nat (length r))%Z)
              (firstn (Z.to_nat (Model.n_layers Toy.model))
                 [[3; 4; 9]; [5; 6]]%Z)).
  { split; [cbn; lia |].
    change (Forall (fun r => (Model.n_qubits Toy.model * 3 - 1
                              <= Z.of_nat (length r))%Z) [[3; 4; 9]%Z]).
    constructor; [cbv; discriminate | constructor]. }
  split; [exact Hn |]. split; [exact Henough |].
  destruct (circuit_on_list Z Z unit Toy.model [[3; 4; 9]; [5; 6]]%Z 7%Z
              (Noise 0 0 0 0 0)%Z Hn) as [Hok _].
  rewrite (Hok Henough). reflexivity.
Defined.

Lemma circuit_size_witness :
  (1 <= Model.n_qubits Toy.two_qubits)%Z /\
  Model.shape_ok Toy.two_qubits (NdArray [1; 5]%nat [[10; 11; 12; 13; 14]%Z])
  = true /\
  has_shape (Model.n_layers Toy.two_qubits) (Model.n_qubits Toy.two_qubits)
    [[10; 11; 12; 13; 14]%Z] /\
  Z.of_nat 17 = (1 * (9 * 2 - 1))%Z.
Proof.
  assert (H1 : (1 <= Model.n_qubits Toy.two_qubits)%Z) by (cbn; lia).
  assert (H2 : Model.shape_ok Toy.two_qubits
                 (NdArray [1; 5]%nat [[10; 11; 12; 13; 14]%Z]) = true)
    by reflexivity.
  assert (H3 : has_shape (Model.n_layers Toy.two_qubits)
                 (Model.n_qubits Toy.two_qubits) [[10; 11; 12; 13; 14]%Z]).
  { split; [reflexivity |]. constructor; [reflexivity | constructor]. }
  split; [exact H1 |]. split; [exact H2 |]. split; [exact H3 |].
  exact (circuit_size Z Z unit Toy.two_qubits
           (NdArray [1; 5]%nat [[10; 11; 12; 13; 14]%Z]) 7%Z
           (Noise 1 2 3 4 5)%Z _ _ H1 H2 H3 eq_refl).
Defined.

(** ** Wires of the recorded operations *)

Section WiresOnDevice.

Variables scalar input device : Type.

Local Abbreviation op := (operation scalar input).
Local Abbreviation model_t := (Model.t device).

Variable P : op -> Prop.

Lemma keeps_sret {A : Type} (a : A) : keeps P (sret a).
Proof. intros t a0 t' Ht [= _ <-]. exact Ht. Qed.

Lemma keeps_lift {A : Type} (r : result A) : keeps P (lift r).
Proof.
  intros t a t' Ht H. unfold lift in H. destruct r; [| discriminate].
  now injection H as _ <-.
Qed.

Lemma keeps_queue (o : op) : P o -> keeps P (Model.queue o).
Proof.
  intros Ho t a t' Ht [= _ <-]. apply Forall_app. split; [exact Ht |].
  now constructor.
Qed.

Lemma keeps_sbind {A B : Type} (m : ST (list op) A) (k : A -> ST (list op) B) :
  keeps P m -> (forall a, keeps P (k a)) -> keeps P (sbind m k).
Proof.
  intros Hm Hk t b t' Ht H. unfold sbind in H.
  destruct (m t) as [[a t1] |] eqn:E; [| discriminate].
  eapply Hk; [| exact H]. eapply Hm; eassumption.
Qed.

Lemma keeps_for_each {I A : Type} (body : I -> A -> ST (list op) A) :
  forall qs : list I,
    (forall q acc, In q qs -> keeps P (body q acc)) ->
    forall acc, keeps P (for_each qs body acc).
Proof.
  induction qs as [| q qs IH]; intros Hbody acc; cbn [for_each].
  - apply keeps_sret.
  - apply keeps_sbind; [apply Hbody; now left |].
    intros a. apply IH. intros q' acc' Hin. apply Hbody. now right.
Qed.

End WiresOnDevice.

Section CircuitWires.

Variables scalar input device : Type.

Local Abbreviation op := (operation scalar input).
Local Abbreviation model_t := (Model.t device).

Lemma range_In (n q : Z) : In q (range n) -> (0 <= q < n)%Z.
Proof.
  unfold range. intros H. apply in_map_iff in H.
  destruct H as (i & <- & Hi). apply in_seq in Hi. lia.
Qed.

Lemma single_wire (n q : Z) (o : op) :
  (0 <= q < n)%Z -> wires o = [q] -> on_device n o.
Proof.
  intros Hq Hw. unfold on_device. rewrite Hw. split.
  - now constructor.
  - constructor; [intros [] | constructor].
Qed.

Lemma ring_wires (n q : Z) (c : scalar) :
  (0 < q < n)%Z ->
  on_device (input := input) n (CRX c q ((q + 1) mod n)%Z).
Proof.
  intros Hq. unfold on_device. cbn [wires].
  assert (Hmod : (0 <= (q + 1) mod n < n)%Z) by (apply Z.mod_pos_bound; lia).
  assert (Hne : q <> ((q + 1) mod n)%Z).
  { destruct (Z.eq_dec (q + 1) n) as [Heq | Hneq].
    - rewrite Heq, Z.mod_same by lia. lia.
    - rewrite Z.mod_small by lia. lia. }
  split.
  - constructor; [lia |]. constructor; [exact Hmod | constructor].
  - constructor; [| constructor; [intros [] | constructor]].
    intros [H | []]. congruence.
Qed.

Lemma circuit_keeps_wires (self : model_t) (w : weight_array scalar)
  (x : input) (np : noise_params scalar) :
  keeps (on_device (Model.n_qubits self)) (Model._circuit self w x np).
Proof.
  set (n := Model.n_qubits self).
  unfold Model._circuit. destruct (Model.shape_ok self w); [| apply keeps_lift].
  apply keeps_sbind.
  - apply keeps_for_each. intros l [] _.
    apply keeps_sbind.
    { unfold Model.iec. apply keeps_sbind; [| intros; apply keeps_sret].
      apply keeps_for_each. intros q [] Hq. apply range_In in Hq.
      apply keeps_queue. now apply (single_wire n q). }
    intros _. apply keeps_sbind; [apply keeps_lift |]. intros w_l.
    apply keeps_sbind.
    { unfold Model.run_pqc. destruct (Model.pqc self). unfold Model._pqc19.
      apply keeps_sbind.
      - apply keeps_for_each. intros q k Hq. apply range_In in Hq.
        apply keeps_sbind; [apply keeps_lift | intros a].
        apply keeps_sbind;
          [apply keeps_queue; now apply (single_wire n q) | intros _].
        apply keeps_sbind; [apply keeps_lift | intros b].
        apply keeps_sbind;
          [apply keeps_queue; now apply (single_wire n q) | intros _].
        apply keeps_sret.
      - intros k. apply keeps_sbind; [| intros; apply keeps_sret].
        apply keeps_for_each. intros q k' Hq. apply range_In in Hq.
        destruct (Z.gtb_spec q 0) as [Hpos | _]; [| apply keeps_sret].
        apply keeps_sbind; [apply keeps_lift | intros c].
        apply keeps_sbind; [| intros _; apply keeps_sret].
        apply keeps_queue. apply ring_wires. fold n. lia. }
    intros _. apply keeps_sbind; [| intros; apply keeps_sret].
    apply keeps_for_each. intros q [] Hq. apply range_In in Hq.
    unfold Model.apply_noise.
    repeat (apply keeps_sbind;
            [apply keeps_queue; now apply (single_wire n q) | intros _]).
    apply keeps_queue. now apply (single_wire n q).
  - intros _. destruct (Model.state_vector self); apply keeps_sret.
Qed.

(** X1: whatever the weights (list or array, of any size), every operation
    of a circuit that was recorded acts on wires among [0..n_qubits-1], and
    a controlled rotation never has its control as its target; with at
    least one qubit the measured wire 0 is a wire of the device too. *)
Theorem circuit_wires (self : model_t) (w : weight_array scalar) (x : input)
  (np : noise_params scalar) (meas : measurement) (tape : list op) :
  Model._circuit self w x np [] = Ok (meas, tape) ->
  Forall (fun o =>
            Forall (fun q => (0 <= q < Model.n_qubits self)%Z) (wires o) /\
            NoDup (wires o)) tape /\
  ((1 <= Model.n_qubits self)%Z ->
   forall q, meas = ExpvalPauliZ q -> (0 <= q < Model.n_qubits self)%Z).
Proof.
  intros Hrun. split.
  - exact (circuit_keeps_wires self w x np [] meas tape (Forall_nil _) Hrun).
  - intros Hn q Hq. subst meas. unfold Model._circuit in Hrun.
    destruct (Model.shape_ok self w); [| discriminate].
    unfold sbind in Hrun.
    destruct (for_each _ _ tt []) as [[u t1] |]; [| discriminate].
    destruct (Model.state_vector self); unfold sret in Hrun;
      [discriminate |].
    injection Hrun as <- _. lia.
Qed.

End CircuitWires.

Lemma circuit_wires_witness :
  Model._circuit Toy.two_qubits (PyList [[10; 11; 12; 13; 14; 99]%Z]) 7%Z
    (Noise 1 2 3 4 5)%Z []
  = Ok (ExpvalPauliZ 0,
        [RY 7 0; RY 7 1;
         RX 10 0; RZ 11 0; RX 12 1; RZ 13 1; CRX 14 1 0;
         BitFlip 1 0; PhaseFlip 2 0; AmplitudeDamping 3 0; PhaseDamping 4 0;
         DepolarizingChannel 5 0;
         BitFlip 1 1; PhaseFlip 2 1; AmplitudeDamping 3 1; PhaseDamping 4 1;
         DepolarizingChannel 5 1]%Z) /\
  on_device (scalar := Z) (input := Z) 2 (CRX 14 1 0)%Z.
Proof.
  assert (Hrun : Model._circuit Toy.two_qubits
                   (PyList [[10; 11; 12; 13; 14; 99]%Z]) 7%Z
                   (Noise 1 2 3 4 5)%Z []
                 = Ok (ExpvalPauliZ 0,
                       [RY 7 0; RY 7 1;
                        RX 10 0; RZ 11 0; RX 12 1; RZ 13 1; CRX 14 1 0;
                        BitFlip 1 0; PhaseFlip 2 0; AmplitudeDamping 3 0;
                        PhaseDamping 4 0; DepolarizingChannel 5 0;
                        BitFlip 1 1; PhaseFlip 2 1; AmplitudeDamping 3 1;
                        PhaseDamping 4 1; DepolarizingChannel 5 1]%Z))
    by reflexivity.
  split; [exact Hrun |].
  destruct (circuit_wires Z Z unit Toy.two_qubits _ _ _ _ _ Hrun) as [Hall _].
  rewrite Forall_forall in Hall.
  apply (Hall (CRX 14 1 0)%Z). cbn. tauto.
Defined.

(** * Further properties of the training engine *)

Section EngineMore.

Variables device optstate : Type.
Variable qml_device : Z -> result device.
Variable execute :
  device -> list (operation R (list R)) -> measurement -> result (list R).
Variable rng_random : Z -> Z -> Z -> result (list (list R)).
Variable AdamOptimizer : R -> optstate.
Variable step_and_cost :
  optstate -> (weight_array R -> result R) -> weight_array R ->
  result (weight_array R * R * optstate).

Local Abbreviation instructor_t := (Instructor.t device optstate).
Local Abbreviation forward := (Instructor.forward execute).
Local Abbreviation cost := (Instructor.cost execute).
Local Abbreviation step := (Instructor.step execute step_and_cost).
Local Abbreviation init :=
  (Instructor.__init__ qml_device rng_random AdamOptimizer).

(** ** The cost *)








(** ** The initial weights *)

Lemma scaled_weight_range (v : R) :
  0 <= v < 1 -> - (2 * PI) < 2 * PI * (1 - 2 * v) <= 2 * PI.
Proof.
  intros [Hlo Hhi]. pose proof PI_RGT_0 as Hpi. split; nra.
Qed.

(** X6: given that the random generator returns a matrix of the requested
    size with entries from 0 (included) to 1 (excluded), an instance
    constructed with at least one qubit and one layer stores weights of the
    shape [(n_layers, n_qubits*3 - 1)] with entries above [-2*pi] and up to
    [2*pi], and its own circuit records on them without an exception. *)
Theorem initial_weights (n_qubits n_layers seed : Z) (self : instructor_t) :
  unit_interval_matrix rng_random ->
  (1 <= n_qubits)%Z -> (1 <= n_layers)%Z ->
  init n_qubits n_layers seed = Ok self ->
  exists rows,
    Instructor.weights self
    = NdArray [Z.to_nat n_layers; Z.to_nat (n_qubits * 3 - 1)] rows /\
    has_shape n_layers n_qubits rows /\
    Forall (Forall (fun v => - (2 * PI) < v <= 2 * PI)) rows /\
    forall (x : list R) (np : noise_params R),
      Model._circuit (Instructor.model self) (Instructor.weights self) x np []
      = Ok (ExpvalPauliZ 0, circuit_layout n_qubits x np rows).
Proof.
  intros Hrng Hq Hl Hinit.
  destruct (init_fields _ _ _ _ _ _ _ _ _ Hinit)
    as (d & u & _ & Hu & _ & Hmodel & _ & _ & Hw & _).
  assert (Hl0 : (0 <= n_layers)%Z) by lia.
  assert (Hc0 : (0 <= n_qubits * 3 - 1)%Z) by lia.
  destruct (Hrng _ _ _ _ Hl0 Hc0 Hu) as [Hlen Hrows].
  set (g := fun r : R => 2 * PI * (1 - 2 * r)) in *.
  exists (map (map g) u).
  assert (Hshape : has_shape n_layers n_qubits (map (map g) u)).
  { split; [now rewrite length_map |].
    apply Forall_map. eapply Forall_impl; [| exact Hrows].
    intros row [Hrow _]. now rewrite length_map. }
  split; [exact Hw |]. split; [exact Hshape |]. split.
  - apply Forall_map. eapply Forall_impl; [| exact Hrows].
    intros row [_ Hrow]. apply Forall_map. eapply Forall_impl; [| exact Hrow].
    intros v Hv. now apply scaled_weight_range.
  - intros x np. rewrite Hw, Hmodel.
    rewrite circuit_runs; cbn [Model.n_qubits Model.n_layers
      Model.state_vector Model.shape_ok Model.n_params rows_of].
    + replace (Z.to_nat n_layers) with (length (map (map g) u))
        by (rewrite length_map; lia).
      now rewrite firstn_all.
    + exact Hq.
    + apply shape_eqb_spec. cbn [map]. now rewrite !Z2Nat.id by lia.
    + rewrite length_map. lia.
    + destruct Hshape as [_ Hall].
      replace (Z.to_nat n_layers) with (length (map (map g) u))
        by (rewrite length_map; lia).
      rewrite firstn_all. eapply Forall_impl; [| exact Hall].
      intros row Hrow. cbn beta in Hrow. lia.
Qed.

(** ** The targets *)

Lemma sqrt_14_bound : 3 < sqrt 14.
Proof.
  replace 3 with (sqrt (3 * 3)) by (apply sqrt_square; lra).
  apply sqrt_lt_1; lra.
Qed.

Lemma y_fct_bounds (x : R) : -1 < Instructor.y_fct x < 1.
Proof.
  rewrite y_fct_value.
  pose proof sqrt_14_bound as Hs.
  pose proof (COS_bound x) as [H1 H1'].
  pose proof (COS_bound (2 * x)) as [H2 H2'].
  pose proof (COS_bound (3 * x)) as [H3 H3'].
  set (c := cos x + cos (2 * x) + cos (3 * x)) in *.
  assert (Hc : -3 <= c <= 3) by (unfold c; lra).
  assert (Hinv : 0 < / sqrt 14) by (apply Rinv_0_lt_compat; lra).
  assert (Hone : / sqrt 14 * sqrt 14 = 1) by (apply Rinv_l; lra).
  unfold Rdiv. rewrite Rmult_1_l. split; nra.
Qed.

(** X7: every target value lies strictly between -1 and 1 (within
    [3/sqrt 14] of 0, the value at 0), and the target function is even; so
    the targets of a constructed instance all lie strictly between -1 and
    1. *)
Theorem target_bounds :
  (forall x, -1 < Instructor.y_fct x < 1) /\
  (forall x, Rabs (Instructor.y_fct x) <= Instructor.y_fct 0) /\
  Instructor.y_fct 0 = 3 / sqrt 14 /\
  (forall x, Instructor.y_fct (- x) = Instructor.y_fct x) /\
  (forall n_qubits n_layers seed (self : instructor_t),
     init n_qubits n_layers seed = Ok self ->
     Forall (fun y => -1 < y < 1) (Instructor.y_d self)).
Proof.
  assert (H0 : Instructor.y_fct 0 = 3 / sqrt 14).
  { rewrite y_fct_value. rewrite !Rmult_0_r, cos_0. lra. }
  split; [exact y_fct_bounds |]. split; [| split; [exact H0 | split]].
  - intros x. rewrite H0, y_fct_value.
    pose proof sqrt_14_bound as Hs.
    pose proof (COS_bound x) as [H1 H1'].
    pose proof (COS_bound (2 * x)) as [H2 H2'].
    pose proof (COS_bound (3 * x)) as [H3 H3'].
    set (c := cos x + cos (2 * x) + cos (3 * x)) in *.
    assert (Hc : -3 <= c <= 3) by (unfold c; lra).
    assert (Hinv : 0 < / sqrt 14) by (apply Rinv_0_lt_compat; lra).
    unfold Rdiv. rewrite Rmult_1_l.
    apply Rabs_le. split; nra.
  - intros x. rewrite !y_fct_value.
    replace (2 * - x) with (- (2 * x)) by lra.
    replace (3 * - x) with (- (3 * x)) by lra.
    now rewrite !cos_neg.
  - intros n_qubits n_layers seed self Hinit.
    destruct (init_fields _ _ _ _ _ _ _ _ _ Hinit)
      as (d & u & _ & _ & _ & _ & _ & Hy & _).
    rewrite Hy. apply Forall_map. apply Forall_forall.
    intros x _. apply y_fct_bounds.
Qed.

(** ** Lists and arrays *)

(** X8: [step] treats a non-empty nested list whose rows have one length
    exactly like the 2-D array of the same rows, so weights that went
    through session storage as a list continue the training as the array
    would; and once an array passes the shape check, [forward] evaluates it
    as it does the list of its rows. *)
Theorem list_or_array (self : instructor_t) (r : list R)
  (rest : list (list R)) (np : noise_params R) :
  Forall (fun r' => length r' = length r) rest ->
  step (PyList (r :: rest)) np self
  = step (NdArray [S (length rest); length r] (r :: rest)) np self /\
  forall shape x,
    shape_eqb shape (Model.n_params (Instructor.model self)) = true ->
    forward x (Some (NdArray shape (r :: rest))) np self
    = forward x (Some (PyList (r :: rest))) np self.
Proof.
  intros Hrows. split.
  - unfold Instructor.step. cbn [len length rbind Nat.eqb np_array].
    assert (Hall : forallb (fun r' => (length r' =? length r)%nat) rest = true).
    { apply forallb_forall. intros r' Hin. rewrite Forall_forall in Hrows.
      apply Nat.eqb_eq. now apply Hrows. }
    now rewrite Hall.
  - intros shape x Hshape.
    unfold Instructor.forward, Model.__call__, Model._circuit.
    cbn [Model.shape_ok rows_of]. now rewrite Hshape.
Qed.

End EngineMore.


Lemma toy_unit_interval_matrix : unit_interval_matrix Toy.rng_random.
Proof.
  intros seed rows cols u Hr Hc. unfold Toy.rng_random.
  destruct (Z.ltb_spec rows 0); [lia |].
  destruct (Z.ltb_spec cols 0); [lia |].
  cbn [orb]. intros [= <-]. split.
  - rewrite repeat_length. lia.
  - apply Forall_forall. intros row Hrow. apply repeat_spec in Hrow.
    subst row. split; [rewrite repeat_length; lia |].
    apply Forall_forall. intros v Hv. apply repeat_spec in Hv. subst v. lra.
Qed.

Lemma initial_weights_witness :
  unit_interval_matrix Toy.rng_random /\
  (1 <= 2)%Z /\ (1 <= 4)%Z /\
  Instructor.__init__ Toy.qml_device Toy.rng_random Toy.AdamOptimizer 2 4 100
  = Ok Toy.fresh /\
  exists rows,
    Instructor.weights Toy.fresh = NdArray [4; 5]%nat rows /\
    has_shape 4 2 rows.
Proof.
  assert (Hinit : Instructor.__init__ Toy.qml_device Toy.rng_random
                    Toy.AdamOptimizer 2 4 100 = Ok Toy.fresh) by reflexivity.
  assert (Hq : (1 <= 2)%Z) by lia.
  assert (Hl : (1 <= 4)%Z) by lia.
  split; [exact toy_unit_interval_matrix |].
  split; [exact Hq |]. split; [exact Hl |]. split; [exact Hinit |].
  destruct (initial_weights unit nat Toy.qml_device Toy.rng_random
              Toy.AdamOptimizer 2 4 100 Toy.fresh toy_unit_interval_matrix
              Hq Hl Hinit) as (rows & Hw & Hshape & _).
  exists rows. split; [exact Hw | exact Hshape].
Defined.

Lemma list_or_array_witness :
  Forall (fun r' => length r' = length [0; 0]) (@nil (list R)) /\
  Instructor.step Toy.execute Toy.step_and_cost (PyList [[0; 0]])
    Toy.no_noise Toy.instructor
  = Instructor.step Toy.execute Toy.step_and_cost
      (NdArray [1; 2]%nat [[0; 0]]) Toy.no_noise Toy.instructor.
Proof.
  assert (H : Forall (fun r' => length r' = length [0; 0]) (@nil (list R)))
    by constructor.
  split; [exact H |].
  exact (proj1 (list_or_array unit nat Toy.execute Toy.step_and_cost
                  Toy.instructor [0; 0] [] Toy.no_noise H)).
Defined.

(** * The callbacks around the training tick *)

Section Ticks.

Variables device optstate : Type.
Variable qml_device : Z -> result device.
Variable execute :
  device -> list (operation R (list R)) -> measurement -> result (list R).
Variable rng_random : Z -> Z -> Z -> result (list (list R)).
Variable AdamOptimizer : R -> optstate.
Variable step_and_cost :
  optstate -> (weight_array R -> result R) -> weight_array R ->
  result (weight_array R * R * optstate).
Variable page_data : noise_params R.
Variable main_data : main_data_t.

Local Abbreviation tick :=
  (fun log => training qml_device execute rng_random AdamOptimizer
                step_and_cost log page_data main_data).

Lemma next_length (k : nat) :
  (1 <= k)%nat ->
  (if (30 <? (k - 1) mod 31 + 1)%nat then 1 else (k - 1) mod 31 + 1 + 1)%nat
  = (k mod 31 + 1)%nat.
Proof.
  intros Hk.
  pose proof (Nat.div_mod_eq (k - 1) 31) as Hdiv.
  assert (Hlt : ((k - 1) mod 31 < 31)%nat) by (apply Nat.mod_upper_bound; lia).
  set (r := ((k - 1) mod 31)%nat) in *. set (q := ((k - 1) / 31)%nat) in *.
  destruct (Nat.ltb_spec 30 (r + 1)) as [Hfull | Hroom].
  - rewrite <- (Nat.mod_unique k 31 (S q) 0); lia.
  - rewrite <- (Nat.mod_unique k 31 q (r + 1)); lia.
Qed.

Lemma tick_loss_length (page_log : option page_log_t) (out : page_log_t) :
  tick page_log = Ok out ->
  length (loss out)
  = (if (30 <? length (loss (or_default page_log)))%nat then 1
     else length (loss (or_default page_log)) + 1)%nat.
Proof.
  intros H. apply training_run in H.
  destruct H as (ins & w & c & ins' & _ & _ & ->).
  cbn [loss]. rewrite length_app. cbn [length]. unfold cap_reset.
  now destruct (30 <? length (loss (or_default page_log)))%nat.
Qed.

Lemma ticked_loss_length (k : nat) (out : page_log_t) :
  ticked tick k out ->
  (1 <= k)%nat /\ length (loss out) = ((k - 1) mod 31 + 1)%nat.
Proof.
  induction 1 as [out Hrun | k log stored out Hprev [Hk IH] Hloss Hrun].
  - apply tick_loss_length in Hrun. cbn in Hrun. now split.
  - split; [lia |]. apply tick_loss_length in Hrun.
    cbn [or_default] in Hrun. rewrite Hloss, IH in Hrun. rewrite Hrun.
    replace (S k - 1)%nat with k by lia. now apply next_length.
Qed.

(** X9: over successive ticks, each starting from the log the tick before
    stored, the loss sequence after the [k]-th tick has [(k-1) mod 31 + 1]
    entries, so never more than 31; and [pong] hands the log back (printing
    its length) exactly when [k] is not a multiple of 31, raising
    [PreventUpdate] without printing when it is. *)
Theorem ticks_and_pong (k : nat) (out : page_log_t) (timestamp : Z)
  (stdout : list nat) :
  ticked tick k out ->
  length (loss out) = ((k - 1) mod 31 + 1)%nat /\
  (1 <= length (loss out) <= 31)%nat /\
  ((k mod 31 <> 0)%nat ->
   pong timestamp out stdout = (Update out, stdout ++ [(k mod 31)%nat])) /\
  ((k mod 31 = 0)%nat -> pong timestamp out stdout = (PreventUpdate, stdout)).
Proof.
  intros H. destruct (ticked_loss_length k out H) as [Hk Hlen].
  assert (Hlt : ((k - 1) mod 31 < 31)%nat) by (apply Nat.mod_upper_bound; lia).
  pose proof (next_length k Hk) as Hnext.
  split; [exact Hlen |]. split; [lia |].
  unfold pong. rewrite Hlen.
  destruct (Nat.ltb_spec 30 ((k - 1) mod 31 + 1)) as [Hfull | Hroom].
  - split; [intros Hne; lia | reflexivity].
  - split; [| intros Hz; lia].
    intros _. f_equal. f_equal. f_equal. lia.
Qed.

(** X10: whatever number of ticks produced a log, the loss plot shows it as
    one trace of at most 31 points, whose step indices 0..len-1 all lie in
    the plot's fixed x range from 0 to 30; an absent log gives a figure
    without a trace. *)
Theorem loss_plot_range (k : nat) (out : page_log_t) (n : Z) :
  ticked tick k out ->
  traces (update_loss n (Some out)) = [Scatter None (loss out)] /\
  attribute "xaxis_range"%string (layout (update_loss n (Some out)))
  = Some (LRange 0 30) /\
  (Z.of_nat (length (loss out)) - 1 <= 30)%Z /\
  traces (update_loss n None) = [].
Proof.
  intros H. destruct (ticked_loss_length k out H) as [Hk Hlen].
  assert (Hlt : ((k - 1) mod 31 < 31)%nat) by (apply Nat.mod_upper_bound; lia).
  split; [| split; [| split; [lia | reflexivity]]].
  - unfold update_loss. cbn [or_default].
    destruct (Nat.ltb_spec 0 (length (loss out))) as [_ | Hz]; [| lia].
    reflexivity.
  - unfold update_loss. cbn [or_default].
    now destruct (0 <? length (loss out))%nat.
Qed.

End Ticks.

Lemma ticks_and_pong_witness :
  ticked Demo.tick 2 Demo.second /\
  length (loss Demo.second) = 2%nat /\
  pong 0 Demo.second [] = (Update Demo.second, [2%nat]).
Proof.
  assert (H : ticked Demo.tick 2 Demo.second).
  { apply ticked_next with (log := Demo.first) (stored := Demo.first).
    - apply ticked_first. reflexivity.
    - reflexivity.
    - reflexivity. }
  split; [exact H |].
  destruct (ticks_and_pong unit nat Toy.qml_device Toy.execute Toy.rng_random
              Toy.AdamOptimizer Demo.step_and_cost Toy.no_noise Toy.session
              2 Demo.second 0%Z [] H) as (Hlen & _ & Hpong & _).
  split; [exact Hlen |]. apply Hpong. cbn. discriminate.
Defined.

Lemma loss_plot_range_witness :
  ticked Demo.tick 1 Demo.first /\
  traces (update_loss 0 (Some Demo.first)) = [Scatter None (loss Demo.first)] /\
  (Z.of_nat (length (loss Demo.first)) - 1 <= 30)%Z.
Proof.
  assert (H : ticked Demo.tick 1 Demo.first)
    by (apply ticked_first; reflexivity).
  split; [exact H |].
  destruct (loss_plot_range unit nat Toy.qml_device Toy.execute Toy.rng_random
              Toy.AdamOptimizer Demo.step_and_cost Toy.no_noise Toy.session
              1 Demo.first 0%Z H) as (Htr & _ & Hidx & _).
  split; [exact Htr | exact Hidx].
Defined.

(** * The plots of the histogram and of the prediction *)

Section Plots.

Variables device optstate labels : Type.
Variable qml_device : Z -> result device.
Variable execute :
  device -> list (operation R (list R)) -> measurement -> result (list R).
Variable rng_random : Z -> Z -> Z -> result (list (list R)).
Variable AdamOptimizer : R -> optstate.
Variable coefficients :
  (list R -> result (list R)) -> Z -> Z -> result (list complex).
Variable _extract_data_and_labels :
  list (list complex) -> result (labels * fourier_data).

Local Abbreviation instructor_t := (Instructor.t device optstate).
Local Abbreviation init :=
  (Instructor.__init__ qml_device rng_random AdamOptimizer).
Local Abbreviation forward := (Instructor.forward execute).
Local Abbreviation calc_hist :=
  (Instructor.calc_hist execute coefficients _extract_data_and_labels).
Local Abbreviation hist :=
  (update_hist qml_device execute rng_random AdamOptimizer coefficients
     _extract_data_and_labels).
Local Abbreviation expval :=
  (update_expval qml_device execute rng_random AdamOptimizer).

Lemma arange_length (start stop : Z) :
  length (np_arange start stop) = Z.to_nat (stop - start).
Proof. unfold np_arange. now rewrite length_map, length_seq. Qed.

Lemma axis_bins (max_freq : Z) :
  (0 <= max_freq)%Z ->
  np_arange ((- (2 * max_freq + 1)) / 2 + 1) ((2 * max_freq + 1) / 2 + 1)
  = np_arange (- max_freq) (max_freq + 1).
Proof.
  intros Hm.
  assert (H1 : ((- (2 * max_freq + 1)) / 2 = - max_freq - 1)%Z).
  { symmetry. apply (Z.div_unique _ 2 _ 1); lia. }
  assert (H2 : ((2 * max_freq + 1) / 2 = max_freq)%Z).
  { symmetry. apply (Z.div_unique _ 2 _ 1); lia. }
  rewrite H1, H2. f_equal. lia.
Qed.

Lemma calc_hist_shape (n_qubits n_layers seed : Z) (self s' : instructor_t)
  (w : weight_array R) (np : noise_params R) (n : nat) (out : hist_data) :
  coefficients_length coefficients ->
  extract_shape _extract_data_and_labels ->
  (1 <= n_qubits)%Z -> (1 <= n_layers)%Z ->
  init n_qubits n_layers seed = Ok self ->
  calc_hist w np self = Ok ((n, out), s') ->
  Z.of_nat n = (2 * (n_qubits * n_layers) + 1)%Z /\
  exists re im,
    h_comb out = [map (fun p => sqrt (fst p ^ 2 + snd p ^ 2)) (combine re im)] /\
    length re = n /\ length im = n.
Proof.
  intros Hcoef Hext Hq Hl Hinit Hrun.
  destruct (init_fields _ _ _ _ _ _ _ _ _ Hinit) as (_ & _ & _ & _ & Hmax & _).
  destruct (coefficients (fun x => rmap fst (forward x (Some w) np self)) 1
              (Instructor.max_freq self)) as [cs |] eqn:Hc;
    [| unfold Instructor.calc_hist in Hrun; rewrite Hc in Hrun;
       discriminate Hrun].
  destruct (_extract_data_and_labels [cs]) as [[lab data] |] eqn:He;
    [| unfold Instructor.calc_hist in Hrun; rewrite Hc in Hrun;
       cbn [rbind] in Hrun; rewrite He in Hrun; discriminate Hrun].
  apply Hcoef in Hc as Hlen. rewrite Hmax in Hlen.
  destruct (Hext cs (Z.to_nat (n_qubits * n_layers)) lab data) as
    (re & im & Hre & Him & Hlre & Hlim); [nia | exact He |].
  rewrite (calc_hist_run _ _ _ _ _ _ self w np cs lab data re im Hc He Hre Him)
    in Hrun by congruence.
  injection Hrun as <- <- _. split; [nia |].
  exists re, im. split; [reflexivity |]. split; [reflexivity | congruence].
Qed.

(** X11: given the Fourier routine's output sizes and at least one qubit and
    one layer, a histogram refresh that succeeds stores as x axis the
    frequency bins from [-max_freq] to [max_freq], as y axis the step
    indices 0..len(loss)-1, and as z the rows kept so far (none when no
    histogram was stored or the loss is empty) followed by one new row of
    magnitudes, none negative, with one entry per bin; the figure shows this
    surface exactly when the loss is not empty. *)
Theorem hist_record (n : Z) (log : page_log_t)
  (page_log_hist : option page_log_hist_t) (page_data : noise_params R)
  (main_data : main_data_t) (fig : Figure) (out : page_log_hist_t) :
  coefficients_length coefficients ->
  extract_shape _extract_data_and_labels ->
  (1 <= niq main_data)%Z -> (1 <= nil_ main_data)%Z ->
  hist n (Some log) page_log_hist page_data main_data = Ok (fig, out) ->
  let max_freq := (niq main_data * nil_ main_data)%Z in
  let kept :=
    match page_log_hist with
    | None => []
    | Some h => if (length (loss log) =? 0)%nat then [] else hist_z h
    end in
  hist_x out = np_arange (- max_freq) (max_freq + 1) /\
  Z.of_nat (length (hist_x out)) = (2 * max_freq + 1)%Z /\
  hist_y out = range (Z.of_nat (length (loss log))) /\
  (exists row,
     hist_z out = kept ++ [row] /\
     length row = length (hist_x out) /\
     Forall (fun v => 0 <= v) row) /\
  traces fig
  = if (0 <? length (loss log))%nat
    then [Surface (hist_x out) (hist_y out) (hist_z out)] else [].
Proof.
  intros Hcoef Hext Hq Hl Hrun max_freq kept.
  unfold update_hist in Hrun.
  assert (Hkept :
            match page_log_hist with
            | None => Ok (PageLogHist [] [] [])
            | Some h =>
                log0 <- subscript (Some log) ;;
                Ok (if (length (loss log0) =? 0)%nat then PageLogHist [] [] []
                    else h)
            end
            = Ok (PageLogHist
                    (match page_log_hist with
                     | None => []
                     | Some h => if (length (loss log) =? 0)%nat then []
                                 else hist_x h
                     end)
                    (match page_log_hist with
                     | None => []
                     | Some h => if (length (loss log) =? 0)%nat then []
                                 else hist_y h
                     end)
                    kept)).
  { unfold kept. destruct page_log_hist as [h |]; [| reflexivity].
    cbn [subscript rbind].
    destruct (length (loss log) =? 0)%nat; [reflexivity | now destruct h]. }
  rewrite Hkept in Hrun. cbn [rbind] in Hrun.
  destruct (init _ _ _) as [ins |] eqn:Hinit; [| discriminate].
  cbn [rbind subscript] in Hrun.
  destruct (calc_hist (log_weights log) page_data ins)
    as [[[data_len data] s'] |] eqn:Hcalc; [| discriminate].
  destruct (calc_hist_shape _ _ _ _ _ _ _ _ _ Hcoef Hext Hq Hl Hinit Hcalc)
    as (Hlen & re & im & Hcomb & Hlre & Hlim).
  cbn [rbind fst snd] in Hrun. cbv zeta in Hrun.
  rewrite Hcomb in Hrun. cbn [getitem nth_error rbind hist_z] in Hrun.
  injection Hrun as <- <-. cbn [hist_x hist_y hist_z].
  fold max_freq in Hlen. rewrite Hlen.
  assert (Hm : (0 <= max_freq)%Z) by (unfold max_freq; nia).
  rewrite (axis_bins max_freq Hm).
  split; [reflexivity |]. split; [rewrite arange_length; lia |].
  split; [reflexivity |]. split.
  - eexists. split; [reflexivity |]. split.
    + rewrite arange_length, length_map, length_combine. lia.
    + apply magnitude_nonneg.
  - unfold add_trace, update_layout, new_figure.
    now destruct (0 <? length (loss log))%nat.
Qed.

Lemma empty_list_fails (m : Model.t device) (x : list R)
  (np : noise_params R) :
  (1 <= Model.n_layers m)%Z ->
  Model._circuit m (PyList []) x np [] = Raise IndexError.
Proof.
  intros Hl. unfold Model._circuit. cbn [Model.shape_ok rows_of].
  unfold sbind at 1. rewrite (range_cons (Model.n_layers m) Hl).
  cbn [for_each]. unfold sbind at 1. unfold sbind at 1.
  rewrite iec_queues. unfold sbind at 1. reflexivity.
Qed.

Lemma forward_length (self s' : instructor_t) (xs ys : list R)
  (wopt : option (weight_array R)) (np : noise_params R) :
  broadcasts execute ->
  (1 <= Model.n_qubits (Instructor.model self))%Z ->
  (1 <= Model.n_layers (Instructor.model self))%Z ->
  Model.state_vector (Instructor.model self) = false ->
  forward xs wopt np self = Ok (ys, s') ->
  length ys = length xs.
Proof.
  intros Hbroadcast Hq Hl Hsv.
  unfold Instructor.forward, lift, Model.__call__, rbind.
  set (w := match wopt with Some w => w | None => Instructor.weights self end).
  set (m := Instructor.model self) in *.
  destruct (Model._circuit m w xs np []) as [[meas tape] |] eqn:Hc;
    [| discriminate].
  cbn [fst snd].
  apply circuit_measurement in Hc as Hmeas. rewrite Hsv in Hmeas. subst meas.
  destruct (execute (Model.dev m) tape (ExpvalPauliZ 0)) as [ys0 |] eqn:He;
    [| discriminate].
  intros [= -> _].
  assert (Htape : Forall (encodes xs) tape).
  { now destruct (tracks_circuit device xs 0 m w np [] _ _ (Forall_nil _) Hc). }
  now destruct (Hbroadcast _ _ _ _ _ Htape
                  (circuit_encodes device xs 0%nat m w np _ _ Hq Hl Hc) He).
Qed.

(** X12: with at least one qubit and one layer, a refresh of the prediction
    plot evaluates [forward] on the training domain with the stored weights
    before it looks at the loss: a log whose weights are the empty list
    raises the index error, an absent log the type error, and whatever
    [forward] raises is raised.  When [forward] returns, the figure is the
    one with the fixed layout (y range from -1 to 1) and, for a non-empty
    loss, exactly two traces over the 19 grid points: what [forward]
    returned, then the targets, which lie inside the y range; for an empty
    loss it has no trace.  On a device with parameter broadcasting the
    prediction has 19 values too. *)
Theorem expval_plot (n : Z) (log : page_log_t) (page_data : noise_params R)
  (main_data : main_data_t) (ins : instructor_t) :
  (1 <= niq main_data)%Z -> (1 <= nil_ main_data)%Z ->
  init (niq main_data) (nil_ main_data) (seed main_data) = Ok ins ->
  let predicted :=
    forward (Instructor.x_d ins) (Some (log_weights log)) page_data ins in
  (log_weights log = PyList [] ->
   expval n (Some log) page_data main_data = Raise IndexError) /\
  expval n None page_data main_data = Raise TypeError /\
  (forall e,
     predicted = Raise e ->
     expval n (Some log) page_data main_data = Raise e) /\
  (forall y_pred s',
     predicted = Ok (y_pred, s') ->
     expval n (Some log) page_data main_data
     = Ok (MkFigure
             (if (0 <? length (loss log))%nat
              then [Scatter (Some (Instructor.x_d ins)) y_pred;
                    Scatter (Some (Instructor.x_d ins)) (Instructor.y_d ins)]
              else [])
             [("title", LText "Prediction");
              ("template", LText "simple_white");
              ("xaxis_title", LText "X Domain");
              ("yaxis_title", LText "Expectation Value");
              ("yaxis_range", LRange (-1) 1)]%string) /\
     length (Instructor.x_d ins) = 19%nat /\
     length (Instructor.y_d ins) = 19%nat /\
     Forall (fun y => -1 < y < 1) (Instructor.y_d ins) /\
     (broadcasts execute -> length y_pred = 19%nat)).
Proof.
  intros Hq Hl Hinit predicted.
  destruct (init_fields _ _ _ _ _ _ _ _ _ Hinit)
    as (d & u & _ & _ & _ & Hmodel & Hx & Hy & _).
  assert (Hlen : length (Instructor.x_d ins) = 19%nat).
  { rewrite Hx, n_d_value. unfold np_linspace.
    now rewrite length_map, length_seq. }
  split; [| split; [| split]].
  - intros Hw. unfold update_expval. rewrite Hinit.
    cbn [rbind subscript]. rewrite Hw.
    unfold Instructor.forward, lift, Model.__call__.
    rewrite empty_list_fails; [reflexivity |]. now rewrite Hmodel.
  - unfold update_expval. now rewrite Hinit.
  - intros e Hf. unfold update_expval. rewrite Hinit.
    cbn [rbind subscript]. fold predicted. now rewrite Hf.
  - intros y_pred s' Hf. split; [| split; [exact Hlen | split; [| split]]].
    + unfold update_expval. rewrite Hinit. cbn [rbind subscript].
      fold predicted. rewrite Hf. cbn [rbind fst]. cbv zeta.
      unfold add_trace, update_layout, new_figure.
      now destruct (0 <? length (loss log))%nat.
    + now rewrite Hy, length_map.
    + rewrite Hy. apply Forall_map. apply Forall_forall.
      intros x _. apply y_fct_bounds.
    + intros Hbroadcast. rewrite <- Hlen.
      eapply forward_length; try eassumption; rewrite Hmodel;
        first [assumption | reflexivity].
Qed.

End Plots.

Lemma hist_record_witness :
  coefficients_length Toy.coefficients /\
  extract_shape Toy._extract_data_and_labels /\
  (1 <= niq Toy.session)%Z /\ (1 <= nil_ Toy.session)%Z /\
  exists fig out,
    update_hist Toy.qml_device Toy.execute Toy.rng_random Toy.AdamOptimizer
      Toy.coefficients Toy._extract_data_and_labels 0 (Some Demo.first) None
      Toy.no_noise Toy.session = Ok (fig, out) /\
    hist_x out = [-1; 0; 1]%Z.
Proof.
  assert (Hq : (1 <= niq Toy.session)%Z) by (cbn; lia).
  assert (Hl : (1 <= nil_ Toy.session)%Z) by (cbn; lia).
  split; [exact toy_coefficients_length |].
  split; [exact toy_extract_shape |].
  split; [exact Hq |]. split; [exact Hl |].
  eexists. eexists. split; [reflexivity |].
  exact (proj1 (hist_record unit nat unit Toy.qml_device Toy.execute
                  Toy.rng_random Toy.AdamOptimizer Toy.coefficients
                  Toy._extract_data_and_labels 0 Demo.first None Toy.no_noise
                  Toy.session _ _ toy_coefficients_length toy_extract_shape
                  Hq Hl eq_refl)).
Defined.

Lemma expval_plot_witness :
  (1 <= niq Toy.session)%Z /\ (1 <= nil_ Toy.session)%Z /\
  Instructor.__init__ Toy.qml_device Toy.rng_random Toy.AdamOptimizer
    (niq Toy.session) (nil_ Toy.session) (seed Toy.session)
  = Ok Demo.instructor /\
  update_expval Toy.qml_device Toy.execute Toy.rng_random Toy.AdamOptimizer
    0 (Some Demo.first) Toy.no_noise Toy.session
  = Ok (MkFigure
          [Scatter (Some (Instructor.x_d Demo.instructor))
             (Instructor.x_d Demo.instructor);
           Scatter (Some (Instructor.x_d Demo.instructor))
             (Instructor.y_d Demo.instructor)]
          [("title", LText "Prediction");
           ("template", LText "simple_white");
           ("xaxis_title", LText "X Domain");
           ("yaxis_title", LText "Expectation Value");
           ("yaxis_range", LRange (-1) 1)]%string) /\
  length (Instructor.x_d Demo.instructor) = 19%nat /\
  update_expval Toy.qml_device Toy.execute Toy.rng_random Toy.AdamOptimizer
    0 (Some empty_log) Toy.no_noise Toy.session
  = Raise IndexError.
Proof.
  assert (Hq : (1 <= niq Toy.session)%Z) by (cbn; lia).
  assert (Hl : (1 <= nil_ Toy.session)%Z) by (cbn; lia).
  assert (Hinit : Instructor.__init__ Toy.qml_device Toy.rng_random
                    Toy.AdamOptimizer (niq Toy.session) (nil_ Toy.session)
                    (seed Toy.session) = Ok Demo.instructor) by reflexivity.
  split; [exact Hq |]. split; [exact Hl |]. split; [exact Hinit |].
  destruct (expval_plot unit nat Toy.qml_device Toy.execute Toy.rng_random
              Toy.AdamOptimizer 0 Demo.first Toy.no_noise Toy.session
              Demo.instructor Hq Hl Hinit) as (_ & _ & _ & Hshown).
  destruct (Hshown (Instructor.x_d Demo.instructor) Demo.instructor eq_refl)
    as (Hfig & _ & _ & _ & Hpred).
  split; [exact Hfig |]. split; [exact (Hpred toy_broadcasts) |].
  exact (proj1 (expval_plot unit nat Toy.qml_device Toy.execute
                  Toy.rng_random Toy.AdamOptimizer 0 empty_log Toy.no_noise
                  Toy.session Demo.instructor Hq Hl Hinit) eq_refl).
Defined.
